(** * Inner Orbit: the two Phaser demos, as programs over an engine model

    The repository holds two scenes written against the Phaser 3 API:
    - [src/src/main.js]: the "getting started" scene (module [Tutorial]);
    - [src/innerorbit-game/src/main.js]: the platform game [ShaderScene]
      (module [Game]).

    Both are glue code: every statement is either an assignment to a field
    of the scene or a call of an engine method.  A scene callback is
    therefore embedded as a program in a small monad that threads the
    state the callback can read and write, and records every engine call
    it makes, in order.  The effect an engine call has on that state is
    given once, by an interpretation function of the calls. *)

From Stdlib Require Import ZArith QArith DecimalString Lia SpecFloat.
From stdpp Require Import base strings list gmap.

(** ** Programs: state passing with a log of engine calls *)

Section Prog.
Context {St C : Type}.

(** A program returns a value, the next state and the calls it made. *)
Definition Prog (A : Type) : Type := St -> A * St * list C.

Definition ret {A} (a : A) : Prog A := fun s => (a, s, []).

Definition bind {A B} (m : Prog A) (k : A -> Prog B) : Prog B :=
  fun s =>
    let '(a, s1, l1) := m s in
    let '(b, s2, l2) := k a s1 in
    (b, s2, l1 ++ l2).

(** Read a field. *)
Definition gets {A} (f : St -> A) : Prog A := fun s => (f s, s, []).

(** Assign a field. *)
Definition modify (f : St -> St) : Prog unit := fun s => (tt, f s, []).

(** Call an engine method: the call is logged and takes effect. *)
Definition emit (interp : C -> St -> St) (c : C) : Prog unit :=
  fun s => (tt, interp c s, [c]).

(** [if (b) { m }] without an else branch. *)
Definition when (b : bool) (m : Prog unit) : Prog unit :=
  if b then m else ret tt.

(** Run a body for each element of a list of indices, in order. *)
Fixpoint for_ (l : list nat) (body : nat -> Prog unit) : Prog unit :=
  match l with
  | [] => ret tt
  | i :: l' => bind (body i) (fun _ => for_ l' body)
  end.

Definition exec {A} (m : Prog A) (s : St) : St := snd (fst (m s)).
Definition calls {A} (m : Prog A) (s : St) : list C := snd (m s).
Definition value {A} (m : Prog A) (s : St) : A := fst (fst (m s)).
End Prog.

Declare Scope prog_scope.
Delimit Scope prog_scope with prog.
Notation "x <- m ;; k" := (bind m (fun x => k))
  (at level 100, m at next level, right associativity) : prog_scope.
Notation "m ;; k" := (bind m (fun _ => k))
  (at level 100, right associativity) : prog_scope.

(** ** The tutorial scene, [src/src/main.js] *)

Module Tutorial.

(** The engine methods the scene calls. *)
Inductive Call : Type :=
| LoadSetBaseURL (url : string)
| LoadImage (key url : string)
| AddImage (x y : Z) (key : string).

(** What the scene's calls act on: the loader (base URL, queued files)
    and the display list. *)
Record Engine : Type := mkEngine {
  baseURL : string;
  queue : list (string * string);
  displayList : list (Z * Z * string);
}.

Definition boot : Engine :=
  {| baseURL := ""; queue := []; displayList := [] |}.

Fixpoint last_char (s : string) : option Ascii.ascii :=
  match s with
  | EmptyString => None
  | String c EmptyString => Some c
  | String _ s' => last_char s'
  end.

(** Engine contract of [load.setBaseURL]: a non-empty URL gets a trailing
    slash when it has none. *)
Definition normalise_base (url : string) : string :=
  match last_char url with
  | None => url
  | Some c => if Ascii.eqb c (Ascii.ascii_of_nat 47) then url else url +:+ "/"
  end.

(** Engine contract of the loader: a file whose URL carries its own
    scheme is fetched as it is, any other one from the base URL. *)
Definition absolute (url : string) : bool :=
  String.prefix "blob:" url || String.prefix "data:" url
  || String.prefix "capacitor://" url || String.prefix "http://" url
  || String.prefix "https://" url || String.prefix "//" url.

Definition fetch_url (e : Engine) (url : string) : string :=
  if absolute url then url else baseURL e +:+ url.

Definition interp (c : Call) (e : Engine) : Engine :=
  match c with
  | LoadSetBaseURL url =>
      {| baseURL := normalise_base url; queue := queue e;
         displayList := displayList e |}
  | LoadImage key url =>
      {| baseURL := baseURL e; queue := queue e ++ [(key, url)];
         displayList := displayList e |}
  | AddImage x y key =>
      {| baseURL := baseURL e; queue := queue e;
         displayList := displayList e ++ [(x, y, key)] |}
  end.

Definition call (c : Call) : Prog unit := emit interp c.

(** The files the loader fetches when the queue is started. *)
Definition fetched (e : Engine) : list (string * string) :=
  (fun f => (fst f, fetch_url e (snd f))) <$> queue e.

Local Open Scope prog_scope.

(** [function preload()], lines 15-18. *)
Definition preload : @Prog Engine Call unit :=
  call (LoadSetBaseURL "https://labs.phaser.io") ;;
  call (LoadImage "sky" "assets/skies/space3.png").

(** [function create()], lines 20-22. *)
Definition create : @Prog Engine Call unit :=
  call (AddImage 400 300 "sky").

(** [function update() {}], line 24. *)
Definition update : @Prog Engine Call unit := ret tt.

(** The engine's frame loop after [create]: [update] once per frame. *)
Fixpoint frames (n : nat) (e : Engine) : Engine * list Call :=
  match n with
  | O => (e, [])
  | S n' =>
      let '(e1, l1) := frames n' e in
      (exec update e1, l1 ++ calls update e1)
  end.

End Tutorial.

(** ** The game scene, [src/innerorbit-game/src/main.js] *)

Module Game.

(** *** Data *)

(** Numbers.  Every JS number is a double.  Coordinates, velocities and
    bounce factors are only stored, copied and compared by the scene, so
    they are rationals here (every finite double is one).  The score only
    ever holds a multiple of 10, on which [+= 10] is exact below 2^53: it
    is an integer.  The frame time of [WaveShaderPipeline] (lines 35-41)
    is the one number the code does inexact arithmetic on ([+= 0.01]); it
    is read by the shader only and is not part of the scene. *)

(** The pipeline a game object renders with: the renderer's default one
    or the ['Wave'] pipeline registered by [create] (line 63). *)
Inductive Pipeline : Type := DefaultPipeline | WavePipeline.

(** A game object (image or sprite) with its arcade body.  [pipeline] is
    an option because [update] tests [!child.pipeline] (line 213). *)
Record GameObject : Type := mkGameObject {
  texture : string;
  x : Q;
  y : Q;
  scale : Q;
  velocityX : Q;
  velocityY : Q;
  bounceX : Q;
  bounceY : Q;
  collideWorldBounds : bool;
  enable : bool;            (* body.enable *)
  touchingDown : bool;      (* body.touching.down *)
  active : bool;
  visible : bool;
  pipeline : option Pipeline;
  tint : option Z;
  anim : option string;     (* key of the animation being played *)
}.

(** The scene: the fields of [this] that the callbacks use, and the
    pause flag of the physics world. *)
Record Scene : Type := mkScene {
  sky : GameObject;
  platforms : list GameObject;
  player : GameObject;
  stars : list GameObject;
  bombs : list GameObject;
  score : Z;
  scoreText : string;            (* text shown by this.scoreText *)
  gameOver : bool;
  gameOverTextVisible : bool;    (* this.gameOverText.visible *)
  shaderEnabled : bool;
  physicsPaused : bool;
}.

(** Field updates of a game object. *)
Definition set_position (px py : Q) (o : GameObject) : GameObject :=
  {| texture := texture o; x := px; y := py; scale := scale o;
     velocityX := velocityX o; velocityY := velocityY o;
     bounceX := bounceX o; bounceY := bounceY o;
     collideWorldBounds := collideWorldBounds o; enable := enable o;
     touchingDown := touchingDown o; active := active o;
     visible := visible o; pipeline := pipeline o; tint := tint o;
     anim := anim o |}.
Definition set_scale (q : Q) (o : GameObject) : GameObject :=
  {| texture := texture o; x := x o; y := y o; scale := q;
     velocityX := velocityX o; velocityY := velocityY o;
     bounceX := bounceX o; bounceY := bounceY o;
     collideWorldBounds := collideWorldBounds o; enable := enable o;
     touchingDown := touchingDown o; active := active o;
     visible := visible o; pipeline := pipeline o; tint := tint o;
     anim := anim o |}.
Definition set_velocityX (q : Q) (o : GameObject) : GameObject :=
  {| texture := texture o; x := x o; y := y o; scale := scale o;
     velocityX := q; velocityY := velocityY o; bounceX := bounceX o;
     bounceY := bounceY o; collideWorldBounds := collideWorldBounds o;
     enable := enable o; touchingDown := touchingDown o;
     active := active o; visible := visible o; pipeline := pipeline o;
     tint := tint o; anim := anim o |}.
Definition set_velocityY (q : Q) (o : GameObject) : GameObject :=
  {| texture := texture o; x := x o; y := y o; scale := scale o;
     velocityX := velocityX o; velocityY := q; bounceX := bounceX o;
     bounceY := bounceY o; collideWorldBounds := collideWorldBounds o;
     enable := enable o; touchingDown := touchingDown o;
     active := active o; visible := visible o; pipeline := pipeline o;
     tint := tint o; anim := anim o |}.
Definition set_bounceX (q : Q) (o : GameObject) : GameObject :=
  {| texture := texture o; x := x o; y := y o; scale := scale o;
     velocityX := velocityX o; velocityY := velocityY o; bounceX := q;
     bounceY := bounceY o; collideWorldBounds := collideWorldBounds o;
     enable := enable o; touchingDown := touchingDown o;
     active := active o; visible := visible o; pipeline := pipeline o;
     tint := tint o; anim := anim o |}.
Definition set_bounceY (q : Q) (o : GameObject) : GameObject :=
  {| texture := texture o; x := x o; y := y o; scale := scale o;
     velocityX := velocityX o; velocityY := velocityY o;
     bounceX := bounceX o; bounceY := q;
     collideWorldBounds := collideWorldBounds o; enable := enable o;
     touchingDown := touchingDown o; active := active o;
     visible := visible o; pipeline := pipeline o; tint := tint o;
     anim := anim o |}.
Definition set_collideWorldBounds (b : bool) (o : GameObject) : GameObject :=
  {| texture := texture o; x := x o; y := y o; scale := scale o;
     velocityX := velocityX o; velocityY := velocityY o;
     bounceX := bounceX o; bounceY := bounceY o; collideWorldBounds := b;
     enable := enable o; touchingDown := touchingDown o;
     active := active o; visible := visible o; pipeline := pipeline o;
     tint := tint o; anim := anim o |}.
Definition set_enable (b : bool) (o : GameObject) : GameObject :=
  {| texture := texture o; x := x o; y := y o; scale := scale o;
     velocityX := velocityX o; velocityY := velocityY o;
     bounceX := bounceX o; bounceY := bounceY o;
     collideWorldBounds := collideWorldBounds o; enable := b;
     touchingDown := touchingDown o; active := active o;
     visible := visible o; pipeline := pipeline o; tint := tint o;
     anim := anim o |}.
Definition set_touchingDown (b : bool) (o : GameObject) : GameObject :=
  {| texture := texture o; x := x o; y := y o; scale := scale o;
     velocityX := velocityX o; velocityY := velocityY o;
     bounceX := bounceX o; bounceY := bounceY o;
     collideWorldBounds := collideWorldBounds o; enable := enable o;
     touchingDown := b; active := active o; visible := visible o;
     pipeline := pipeline o; tint := tint o; anim := anim o |}.
Definition set_active (b : bool) (o : GameObject) : GameObject :=
  {| texture := texture o; x := x o; y := y o; scale := scale o;
     velocityX := velocityX o; velocityY := velocityY o;
     bounceX := bounceX o; bounceY := bounceY o;
     collideWorldBounds := collideWorldBounds o; enable := enable o;
     touchingDown := touchingDown o; active := b; visible := visible o;
     pipeline := pipeline o; tint := tint o; anim := anim o |}.
Definition set_visible (b : bool) (o : GameObject) : GameObject :=
  {| texture := texture o; x := x o; y := y o; scale := scale o;
     velocityX := velocityX o; velocityY := velocityY o;
     bounceX := bounceX o; bounceY := bounceY o;
     collideWorldBounds := collideWorldBounds o; enable := enable o;
     touchingDown := touchingDown o; active := active o; visible := b;
     pipeline := pipeline o; tint := tint o; anim := anim o |}.
Definition set_pipeline (p : option Pipeline) (o : GameObject) : GameObject :=
  {| texture := texture o; x := x o; y := y o; scale := scale o;
     velocityX := velocityX o; velocityY := velocityY o;
     bounceX := bounceX o; bounceY := bounceY o;
     collideWorldBounds := collideWorldBounds o; enable := enable o;
     touchingDown := touchingDown o; active := active o;
     visible := visible o; pipeline := p; tint := tint o;
     anim := anim o |}.
Definition set_tint (c : option Z) (o : GameObject) : GameObject :=
  {| texture := texture o; x := x o; y := y o; scale := scale o;
     velocityX := velocityX o; velocityY := velocityY o;
     bounceX := bounceX o; bounceY := bounceY o;
     collideWorldBounds := collideWorldBounds o; enable := enable o;
     touchingDown := touchingDown o; active := active o;
     visible := visible o; pipeline := pipeline o; tint := c;
     anim := anim o |}.
Definition set_anim (a : option string) (o : GameObject) : GameObject :=
  {| texture := texture o; x := x o; y := y o; scale := scale o;
     velocityX := velocityX o; velocityY := velocityY o;
     bounceX := bounceX o; bounceY := bounceY o;
     collideWorldBounds := collideWorldBounds o; enable := enable o;
     touchingDown := touchingDown o; active := active o;
     visible := visible o; pipeline := pipeline o; tint := tint o;
     anim := a |}.

(** Field updates of the scene. *)
Definition set_sky (v : GameObject) (s : Scene) : Scene :=
  {| sky := v; platforms := platforms s; player := player s;
     stars := stars s; bombs := bombs s; score := score s;
     scoreText := scoreText s; gameOver := gameOver s;
     gameOverTextVisible := gameOverTextVisible s;
     shaderEnabled := shaderEnabled s; physicsPaused := physicsPaused s |}.
Definition set_platforms (v : list GameObject) (s : Scene) : Scene :=
  {| sky := sky s; platforms := v; player := player s; stars := stars s;
     bombs := bombs s; score := score s; scoreText := scoreText s;
     gameOver := gameOver s; gameOverTextVisible := gameOverTextVisible s;
     shaderEnabled := shaderEnabled s; physicsPaused := physicsPaused s |}.
Definition set_player (v : GameObject) (s : Scene) : Scene :=
  {| sky := sky s; platforms := platforms s; player := v; stars := stars s;
     bombs := bombs s; score := score s; scoreText := scoreText s;
     gameOver := gameOver s; gameOverTextVisible := gameOverTextVisible s;
     shaderEnabled := shaderEnabled s; physicsPaused := physicsPaused s |}.
Definition set_stars (v : list GameObject) (s : Scene) : Scene :=
  {| sky := sky s; platforms := platforms s; player := player s;
     stars := v; bombs := bombs s; score := score s;
     scoreText := scoreText s; gameOver := gameOver s;
     gameOverTextVisible := gameOverTextVisible s;
     shaderEnabled := shaderEnabled s; physicsPaused := physicsPaused s |}.
Definition set_bombs (v : list GameObject) (s : Scene) : Scene :=
  {| sky := sky s; platforms := platforms s; player := player s;
     stars := stars s; bombs := v; score := score s;
     scoreText := scoreText s; gameOver := gameOver s;
     gameOverTextVisible := gameOverTextVisible s;
     shaderEnabled := shaderEnabled s; physicsPaused := physicsPaused s |}.
Definition set_score (v : Z) (s : Scene) : Scene :=
  {| sky := sky s; platforms := platforms s; player := player s;
     stars := stars s; bombs := bombs s; score := v;
     scoreText := scoreText s; gameOver := gameOver s;
     gameOverTextVisible := gameOverTextVisible s;
     shaderEnabled := shaderEnabled s; physicsPaused := physicsPaused s |}.
Definition set_scoreText (v : string) (s : Scene) : Scene :=
  {| sky := sky s; platforms := platforms s; player := player s;
     stars := stars s; bombs := bombs s; score := score s; scoreText := v;
     gameOver := gameOver s; gameOverTextVisible := gameOverTextVisible s;
     shaderEnabled := shaderEnabled s; physicsPaused := physicsPaused s |}.
Definition set_gameOver (v : bool) (s : Scene) : Scene :=
  {| sky := sky s; platforms := platforms s; player := player s;
     stars := stars s; bombs := bombs s; score := score s;
     scoreText := scoreText s; gameOver := v;
     gameOverTextVisible := gameOverTextVisible s;
     shaderEnabled := shaderEnabled s; physicsPaused := physicsPaused s |}.
Definition set_gameOverTextVisible (v : bool) (s : Scene) : Scene :=
  {| sky := sky s; platforms := platforms s; player := player s;
     stars := stars s; bombs := bombs s; score := score s;
     scoreText := scoreText s; gameOver := gameOver s;
     gameOverTextVisible := v; shaderEnabled := shaderEnabled s;
     physicsPaused := physicsPaused s |}.
Definition set_shaderEnabled (v : bool) (s : Scene) : Scene :=
  {| sky := sky s; platforms := platforms s; player := player s;
     stars := stars s; bombs := bombs s; score := score s;
     scoreText := scoreText s; gameOver := gameOver s;
     gameOverTextVisible := gameOverTextVisible s; shaderEnabled := v;
     physicsPaused := physicsPaused s |}.
Definition set_physicsPaused (v : bool) (s : Scene) : Scene :=
  {| sky := sky s; platforms := platforms s; player := player s;
     stars := stars s; bombs := bombs s; score := score s;
     scoreText := scoreText s; gameOver := gameOver s;
     gameOverTextVisible := gameOverTextVisible s;
     shaderEnabled := shaderEnabled s; physicsPaused := v |}.

(** *** Engine calls *)

(** The objects the callbacks hold references to. *)
Inductive Ref : Type :=
| Sky
| Platform (i : nat)
| Player
| Star (i : nat)
| Bomb (i : nat).

Definition object (r : Ref) (s : Scene) : option GameObject :=
  match r with
  | Sky => Some (sky s)
  | Platform i => platforms s !! i
  | Player => Some (player s)
  | Star i => stars s !! i
  | Bomb i => bombs s !! i
  end.

(** In-place update of the referenced object; a group member that does
    not exist is never passed by the engine and nothing changes then. *)
Definition update_object (r : Ref) (f : GameObject -> GameObject)
    (s : Scene) : Scene :=
  match r with
  | Sky => set_sky (f (sky s)) s
  | Platform i => set_platforms (alter f i (platforms s)) s
  | Player => set_player (f (player s)) s
  | Star i => set_stars (alter f i (stars s)) s
  | Bomb i => set_bombs (alter f i (bombs s)) s
  end.

(** The engine methods the callbacks of [ShaderScene] call. *)
Inductive Call : Type :=
| SetPipeline (o : Ref) (name : string)
| ResetPipeline (o : Ref)
| SetVelocityX (o : Ref) (v : Q)
| SetVelocityY (o : Ref) (v : Q)
| SetVelocity (o : Ref) (vx vy : Q)
| AnimsPlay (o : Ref) (key : string) (ignoreIfPlaying : bool)
| DisableBody (o : Ref) (disableGameObject hideGameObject : bool)
| EnableBody (o : Ref) (reset : bool) (px py : Q)
    (enableGameObject showGameObject : bool)
| SetText (txt : string)                   (* this.scoreText.setText *)
| BombsCreate (px py : Q) (key : string)   (* this.bombs.create *)
| SetBounce (o : Ref) (b : Q)
| SetCollideWorldBounds (o : Ref) (b : bool)
| SetTint (o : Ref) (colour : Z)
| PhysicsPause                             (* this.physics.pause *)
| SceneRestart.                            (* this.scene.restart *)

(** A game object as the engine makes it (WebGL renderer, line 281):
    at rest, enabled, shown, on the default pipeline. *)
Definition newObject (key : string) (px py : Q) : GameObject :=
  {| texture := key; x := px; y := py; scale := 1%Q;
     velocityX := 0%Q; velocityY := 0%Q; bounceX := 0%Q; bounceY := 0%Q;
     collideWorldBounds := false; enable := true; touchingDown := false;
     active := true; visible := true;
     pipeline := Some DefaultPipeline; tint := None; anim := None |}.

(** [body.stop()]: the velocity becomes zero. *)
Definition stop (o : GameObject) : GameObject :=
  set_velocityY 0%Q (set_velocityX 0%Q o).

Definition disable (disableGameObject hideGameObject : bool)
    (o : GameObject) : GameObject :=
  let o1 := set_enable false (stop o) in
  let o2 := if disableGameObject then set_active false o1 else o1 in
  if hideGameObject then set_visible false o2 else o2.

Definition reenable (reset : bool) (px py : Q)
    (enableGameObject showGameObject : bool) (o : GameObject) : GameObject :=
  let o1 := if reset then set_position px py (stop o) else o in
  let o2 := if enableGameObject then set_active true o1 else o1 in
  let o3 := if showGameObject then set_visible true o2 else o2 in
  set_enable true o3.

(** The effect of each call on the scene, after the engine's API
    documentation.  ['Wave'] is the only pipeline the scene registers;
    [setPipeline] with another name finds none and changes nothing.
    [scene.restart()] only queues the restart: the engine shuts the scene
    down and runs [create] again afterwards (see [handle]). *)
Definition interp (c : Call) (s : Scene) : Scene :=
  match c with
  | SetPipeline o name =>
      if String.eqb name "Wave"
      then update_object o (set_pipeline (Some WavePipeline)) s
      else s
  | ResetPipeline o => update_object o (set_pipeline (Some DefaultPipeline)) s
  | SetVelocityX o v => update_object o (set_velocityX v) s
  | SetVelocityY o v => update_object o (set_velocityY v) s
  | SetVelocity o vx vy =>
      update_object o (fun ob => set_velocityY vy (set_velocityX vx ob)) s
  | AnimsPlay o key _ => update_object o (set_anim (Some key)) s
  | DisableBody o dg hg => update_object o (disable dg hg) s
  | EnableBody o reset px py eg sg =>
      update_object o (reenable reset px py eg sg) s
  | SetText txt => set_scoreText txt s
  | BombsCreate px py key => set_bombs (bombs s ++ [newObject key px py]) s
  | SetBounce o b =>
      update_object o (fun ob => set_bounceY b (set_bounceX b ob)) s
  | SetCollideWorldBounds o b => update_object o (set_collideWorldBounds b) s
  | SetTint o colour => update_object o (set_tint (Some colour)) s
  | PhysicsPause => set_physicsPaused true s
  | SceneRestart => s
  end.

Definition call (c : Call) : @Prog Scene Call unit := emit interp c.

(** [group.children.each(f)] and [group.children.iterate(f)]: [f] on
    every child, in order. *)
Definition each (group : Scene -> list GameObject)
    (body : nat -> @Prog Scene Call unit) : @Prog Scene Call unit :=
  bind (gets (fun s => length (group s))) (fun n => for_ (seq 0 n) body).

(** [group.countActive(true)]. *)
Definition countActive (group : list GameObject) : nat :=
  length (filter (fun o => active o = true) group).

(** [a < b] on numbers. *)
Definition Qltb (a b : Q) : bool := negb (Qle_bool b a).

(** ['' + n] for an integral number below 10^21. *)
Definition Number_toString (n : Z) : string :=
  NilZero.string_of_int (Z.to_int n).

(** *** The callbacks of [ShaderScene] *)

Local Open Scope prog_scope.

Definition wave (o : GameObject) : GameObject :=
  set_pipeline (Some WavePipeline) o.

(** [create()], lines 60-186, as the scene it leaves behind.  [fb i] is
    the draw of [Phaser.Math.FloatBetween(0.4, 0.8)] for the i-th star
    (line 123).  The group configuration of line 116 makes 12 stars,
    at x = 12, 82, ..., y = 0. *)
Definition create (fb : nat -> Q) : Scene :=
  {| sky := wave (newObject "sky" 400%Q 300%Q);
     platforms :=
       [ wave (set_scale 2%Q (newObject "ground" 400%Q 568%Q));
         wave (newObject "ground" 600%Q 400%Q);
         wave (newObject "ground" 50%Q 250%Q);
         wave (newObject "ground" 750%Q 220%Q) ];
     player :=
       wave (set_collideWorldBounds true
               (set_bounceY 0.2%Q
                  (set_bounceX 0.2%Q (newObject "dude" 100%Q 450%Q))));
     stars :=
       (fun i =>
          wave (set_bounceY (fb i)
                  (newObject "star" (12 + 70 * inject_Z (Z.of_nat i))%Q 0%Q)))
         <$> seq 0 12;
     bombs := [];
     score := 0%Z;
     scoreText := "Score: 0";
     gameOver := false;
     gameOverTextVisible := false;
     shaderEnabled := true;
     physicsPaused := false |}.

(** [this.cursors]: which of the four keys are down in this frame. *)
Record Cursors : Type := mkCursors {
  left : bool;
  right : bool;
  up : bool;
  space : bool;
}.

(** The callback of lines 212-216, on the j-th bomb. *)
Definition shade_new_bomb (j : nat) : @Prog Scene Call unit :=
  p <- gets (fun s => object (Bomb j) s ≫= (fun o => pipeline o)) ;;
  when (negb (bool_decide (is_Some p))) (call (SetPipeline (Bomb j) "Wave")).

(** [update()], lines 188-218. *)
Definition update (cursors : Cursors) : @Prog Scene Call unit :=
  over <- gets (fun s => gameOver s) ;;
  if over then ret tt
  else
    (if left cursors then
       (call (SetVelocityX Player (-160)%Q) ;;
        call (AnimsPlay Player "left" true))
     else if right cursors then
       (call (SetVelocityX Player 160%Q) ;;
        call (AnimsPlay Player "right" true))
     else
       (call (SetVelocityX Player 0%Q) ;;
        call (AnimsPlay Player "turn" false))) ;;
    down <- gets (fun s => touchingDown (player s)) ;;
    when ((up cursors || space cursors) && down)
      (call (SetVelocityY Player (-350)%Q)) ;;
    shader <- gets (fun s => shaderEnabled s) ;;
    when shader (each (fun s => bombs s) shade_new_bomb).

(** The callback of lines 229-234, on the k-th star. *)
Definition put_back (k : nat) : @Prog Scene Call unit :=
  cx <- gets (fun s => from_option (fun o => x o) 0%Q (object (Star k) s)) ;;
  call (EnableBody (Star k) true cx 0%Q true true) ;;
  shader <- gets (fun s => shaderEnabled s) ;;
  when shader (call (SetPipeline (Star k) "Wave")).

(** [collectStar(player, star)], lines 220-246.  [between] gives the
    draws of [Phaser.Math.Between] made by this invocation. *)
Definition collectStar (between : Z -> Z -> Z) (player star : Ref)
    : @Prog Scene Call unit :=
  call (DisableBody star true true) ;;
  modify (fun s => set_score (score s + 10)%Z s) ;;
  sc <- gets (fun s => score s) ;;
  call (SetText ("Score: " +:+ Number_toString sc)) ;;
  n <- gets (fun s => countActive (stars s)) ;;
  if Nat.eqb n 0%nat then
    each (fun s => stars s) put_back ;;
    px <- gets (fun s => from_option (fun o => x o) 0%Q (object player s)) ;;
    let bx :=
      if Qltb px 400%Q then between 400%Z 800%Z else between 0%Z 400%Z in
    bomb <- gets (fun s => Bomb (length (bombs s))) ;;
    call (BombsCreate (inject_Z bx) 16%Q "bomb") ;;
    call (SetBounce bomb 1%Q) ;;
    call (SetCollideWorldBounds bomb true) ;;
    call (SetVelocity bomb (inject_Z (between (-200)%Z 200%Z)) 20%Q) ;;
    shader <- gets (fun s => shaderEnabled s) ;;
    when shader (call (SetPipeline bomb "Wave"))
  else ret tt.

(** [hitBomb(player, bomb)], lines 248-254. *)
Definition hitBomb (player bomb : Ref) : @Prog Scene Call unit :=
  call PhysicsPause ;;
  call (SetTint player 16711680%Z) ;;
  call (AnimsPlay player "turn" false) ;;
  modify (set_gameOver true) ;;
  modify (set_gameOverTextVisible true).

(** The [pointerdown] handler, lines 155-159. *)
Definition pointerdown : @Prog Scene Call unit :=
  over <- gets (fun s => gameOver s) ;;
  when over (call SceneRestart).

(** The [keydown-S] handler, lines 169-185. *)
Definition keydown_S : @Prog Scene Call unit :=
  modify (fun s => set_shaderEnabled (negb (shaderEnabled s)) s) ;;
  shader <- gets (fun s => shaderEnabled s) ;;
  if shader then
    call (SetPipeline Sky "Wave") ;;
    each (fun s => platforms s)
      (fun i => call (SetPipeline (Platform i) "Wave")) ;;
    each (fun s => stars s) (fun i => call (SetPipeline (Star i) "Wave")) ;;
    call (SetPipeline Player "Wave") ;;
    each (fun s => bombs s) (fun i => call (SetPipeline (Bomb i) "Wave"))
  else
    call (ResetPipeline Sky) ;;
    each (fun s => platforms s) (fun i => call (ResetPipeline (Platform i))) ;;
    each (fun s => stars s) (fun i => call (ResetPipeline (Star i))) ;;
    call (ResetPipeline Player) ;;
    each (fun s => bombs s) (fun i => call (ResetPipeline (Bomb i))).

(** *** The scene in the engine's loop *)

(** What a physics step may do to a body: move it, change its velocity
    and its contact flag. *)
Record Motion : Type := mkMotion {
  to_x : Q;
  to_y : Q;
  to_velocityX : Q;
  to_velocityY : Q;
  to_touchingDown : bool;
}.

Definition move (m : Motion) (o : GameObject) : GameObject :=
  set_touchingDown (to_touchingDown m)
    (set_velocityY (to_velocityY m)
       (set_velocityX (to_velocityX m)
          (set_position (to_x m) (to_y m) o))).

(** What the engine does with the scene between two callbacks. *)
Inductive Event : Type :=
| Frame (cursors : Cursors)                   (* update() *)
| Overlap (i : nat) (between : Z -> Z -> Z)   (* the player overlaps star i *)
| Collide (j : nat)                           (* the player hits bomb j *)
| PointerDown (fb : nat -> Q)                 (* a click; draws of a restart *)
| KeyDownS
| WorldStep (mp : Motion) (ms mb : nat -> Motion).

Definition is_restart (c : Call) : bool :=
  match c with SceneRestart => true | _ => false end.

(** One event.  A restart requested by the handler is carried out by
    running [create] again.  A world step moves the dynamic bodies in any
    way (more than the arcade physics can do). *)
Definition handle (e : Event) (s : Scene) : Scene :=
  match e with
  | Frame cursors => exec (update cursors) s
  | Overlap i between => exec (collectStar between Player (Star i)) s
  | Collide j => exec (hitBomb Player (Bomb j)) s
  | PointerDown fb =>
      if existsb is_restart (calls pointerdown s) then create fb
      else exec pointerdown s
  | KeyDownS => exec keydown_S s
  | WorldStep mp ms mb =>
      set_bombs (imap (fun j => move (mb j)) (bombs s))
        (set_stars (imap (fun i => move (ms i)) (stars s))
           (set_player (move mp (player s)) s))
  end.

Definition run (es : list Event) (s : Scene) : Scene :=
  foldl (fun s e => handle e s) s es.

(** The scenes the game can be in. *)
Inductive reachable : Scene -> Prop :=
| reachable_create fb : reachable (create fb)
| reachable_handle s e : reachable s -> reachable (handle e s).

(** *** Views of the callbacks used in the statements *)

(** The pipeline the toggle gives to every object. *)
Definition pipeline_for (shader : bool) : option Pipeline :=
  Some (if shader then WavePipeline else DefaultPipeline).

Definition repipe (shader : bool) (o : GameObject) : GameObject :=
  set_pipeline (pipeline_for shader) o.

(** Every object renders with the pipeline the flag asks for. *)
Definition follows_flag (s : Scene) : Prop :=
  let p := pipeline_for (shaderEnabled s) in
  pipeline (sky s) = p
  /\ Forall (fun o => pipeline o = p) (platforms s)
  /\ Forall (fun o => pipeline o = p) (stars s)
  /\ pipeline (player s) = p
  /\ Forall (fun o => pipeline o = p) (bombs s).

(** The loop of lines 212-216 gives the Wave pipeline to the bombs that
    have no pipeline at all. *)
Definition ensure_pipeline (o : GameObject) : GameObject :=
  match pipeline o with Some _ => o | None => wave o end.

(** The player's part of [update]: lines 194-208. *)
Definition steer (cursors : Cursors) (o : GameObject) : GameObject :=
  let o1 :=
    if left cursors then set_anim (Some "left") (set_velocityX (-160) o)
    else if right cursors then set_anim (Some "right") (set_velocityX 160 o)
    else set_anim (Some "turn") (set_velocityX 0 o) in
  if (up cursors || space cursors) && touchingDown o
  then set_velocityY (-350) o1 else o1.

(** Lines 221-225: the star is disabled, the score and its text move on. *)
Definition collected (i : nat) (s : Scene) : Scene :=
  set_scoreText ("Score: " +:+ Number_toString (score s + 10))
    (set_score (score s + 10)%Z
       (set_stars (alter (disable true true) i (stars s)) s)).

(** Lines 230-233: a star is put back at the top, where it is. *)
Definition respawn (shader : bool) (o : GameObject) : GameObject :=
  let o1 := reenable true (x o) 0 true true o in
  if shader then wave o1 else o1.

(** Lines 237-244: the bomb as [collectStar] leaves it. *)
Definition spawn_bomb (shader : bool) (bx vx : Z) : GameObject :=
  let b :=
    set_velocityY 20
      (set_velocityX (inject_Z vx)
         (set_collideWorldBounds true
            (set_bounceY 1
               (set_bounceX 1 (newObject "bomb" (inject_Z bx) 16)))))
  in if shader then wave b else b.

(** Does this event restart the scene? *)
Definition restarts (e : Event) (s : Scene) : bool :=
  match e with PointerDown _ => gameOver s | _ => false end.

Definition is_collide (e : Event) : bool :=
  match e with Collide _ => true | _ => false end.

(** The events that neither collect a star nor click. *)
Definition quiet (e : Event) : bool :=
  match e with Overlap _ _ | PointerDown _ => false | _ => true end.

Definition fb_half : nat -> Q := fun _ => 0.5%Q.

(** A draw that always returns the lower bound. *)
Definition between_lo : Z -> Z -> Z := fun lo _ => lo.

(** The player collects stars 0, 1, ..., n-1 of a fresh scene. *)
Definition collect (n : nat) : list Event :=
  (fun i => Overlap i between_lo) <$> seq 0 n.

(** One star left to collect. *)
Definition one_star_left : Scene := run (collect 11) (create fb_half).

(** All twelve stars collected once: the stars are back and there is a
    bomb. *)
Definition first_bomb : Scene := run (collect 12) (create fb_half).

(** The player has run into that bomb. *)
Definition game_over_scene : Scene := handle (Collide 0) first_bomb.

End Game.

(** ** The shader pipeline, [WaveShaderPipeline], lines 4-42 *)

Module WaveShaderPipeline.

(** The frame time is a double: IEEE-754 binary64, with the standard
    library's executable model of it. *)
Definition double : Type := spec_float.

Definition add (a b : double) : double := SFadd 53 1024 a b.
Definition ltb (a b : double) : bool := SFltb a b.

Definition of_Z (z : Z) : double := binary_normalize 53 1024 z 0 false.

(** The literal [0.01]: the double nearest to 1/100,
    5764607523034235 * 2^-59. *)
Definition one_hundredth : double := SFdiv 53 1024 (of_Z 1) (of_Z 100).

(** The pipeline: its [time] field and the float uniforms of its shader. *)
Record Pipeline : Type := mkPipeline {
  time : double;
  uniforms : gmap string double;
}.

Inductive Call : Type :=
| Set1f (name : string) (v : double).      (* this.set1f(name, v) *)

Definition interp (c : Call) (p : Pipeline) : Pipeline :=
  match c with
  | Set1f name v => {| time := time p; uniforms := <[name := v]> (uniforms p) |}
  end.

Definition call (c : Call) : @Prog Pipeline Call unit := emit interp c.

(** The constructor, lines 5-36, as far as the fields go: [this.time = 0];
    no uniform has been uploaded. *)
Definition constructor : Pipeline :=
  {| time := S754_zero false; uniforms := ∅ |}.

Local Open Scope prog_scope.

(** [onPreRender()], lines 38-41. *)
Definition onPreRender : @Prog Pipeline Call unit :=
  t <- gets (fun p => time p) ;;
  call (Set1f "uTime" t) ;;
  modify (fun p =>
    {| time := add (time p) one_hundredth; uniforms := uniforms p |}).

(** The renderer calls [onPreRender] once per frame. *)
Fixpoint frames (n : nat) (p : Pipeline) : Pipeline :=
  match n with
  | O => p
  | S n' => exec onPreRender (frames n' p)
  end.


(** The frames of one hour at 60 frames per second. *)
Definition hour : nat := Z.to_nat 216000.


(** Do the next [n] stored times each exceed the one before? *)
Fixpoint rising (n : nat) (t : double) : bool :=
  match n with
  | O => true
  | S n' => let t' := add t one_hundredth in ltb t t' && rising n' t'
  end.

End WaveShaderPipeline.

(** ** Play as the engine drives it *)

Module Play.
Import Game.

(** The arcade physics reports an overlap only with a star that is active
    (a disabled body takes no part in collisions). *)
Definition dispatchable (e : Event) (s : Scene) : bool :=
  match e with
  | Overlap i _ => from_option (fun o => active o) false (stars s !! i)
  | _ => true
  end.

(** The scenes that arise when overlaps are reported for active stars
    only. *)
Inductive played : Scene -> Prop :=
| played_create fb : played (create fb)
| played_handle s e :
    played s -> dispatchable e s = true -> played (handle e s).

(** What [collectStar] gives every bomb (lines 237-240) and the physics
    never takes away. *)
Definition armed (o : GameObject) : Prop :=
  texture o = "bomb" /\ bounceX o = 1%Q /\ bounceY o = 1%Q
  /\ collideWorldBounds o = true
  /\ enable o = true /\ active o = true /\ visible o = true.

(** A star is shown and has a live body exactly when it is active. *)
Definition star_flags_agree (o : GameObject) : Prop :=
  enable o = active o /\ visible o = active o.

Definition is_click (e : Event) : bool :=
  match e with PointerDown _ => true | _ => false end.




(** The calls of a press of S: [c] on every object, in the order of the
    handler. *)
Definition toggle_calls (c : Ref -> Call) (s : Scene) : list Call :=
  [c Sky]
  ++ ((fun i => c (Platform i)) <$> seq 0 (length (platforms s)))
  ++ ((fun i => c (Star i)) <$> seq 0 (length (stars s)))
  ++ [c Player]
  ++ ((fun i => c (Bomb i)) <$> seq 0 (length (bombs s))).

End Play.

(** * Properties *)

(** ** Running programs *)

Section ProgFacts.
Context {St C : Type}.
Implicit Types s : St.

Lemma exec_bind {A B} (m : @Prog St C A) (k : A -> @Prog St C B) s :
  exec (bind m k) s = exec (k (value m s)) (exec m s).
Proof.
  unfold exec, value, bind.
  destruct (m s) as [[a s1] l1]; simpl.
  destruct (k a s1) as [[b s2] l2]; reflexivity.
Qed.

Lemma calls_bind {A B} (m : @Prog St C A) (k : A -> @Prog St C B) s :
  calls (bind m k) s = calls m s ++ calls (k (value m s)) (exec m s).
Proof.
  unfold calls, exec, value, bind.
  destruct (m s) as [[a s1] l1]; simpl.
  destruct (k a s1) as [[b s2] l2]; reflexivity.
Qed.

Lemma exec_when b (m : @Prog St C unit) s :
  exec (when b m) s = if b then exec m s else s.
Proof. destruct b; reflexivity. Qed.

Lemma calls_when b (m : @Prog St C unit) s :
  calls (when b m) s = if b then calls m s else [].
Proof. destruct b; reflexivity. Qed.

Lemma exec_ret {A} (a : A) s : exec (@ret St C A a) s = s.
Proof. reflexivity. Qed.

Lemma exec_gets {A} (f : St -> A) s : exec (@gets St C A f) s = s.
Proof. reflexivity. Qed.

Lemma value_gets {A} (f : St -> A) s : value (@gets St C A f) s = f s.
Proof. reflexivity. Qed.

Lemma exec_modify (f : St -> St) s : exec (@modify St C f) s = f s.
Proof. reflexivity. Qed.

Lemma calls_ret {A} (a : A) s : calls (@ret St C A a) s = [].
Proof. reflexivity. Qed.

Lemma calls_gets {A} (f : St -> A) s : calls (@gets St C A f) s = [].
Proof. reflexivity. Qed.

Lemma calls_modify (f : St -> St) s : calls (@modify St C f) s = [].
Proof. reflexivity. Qed.

Lemma exec_emit (interp : C -> St -> St) c s :
  exec (emit interp c) s = interp c s.
Proof. reflexivity. Qed.

Lemma calls_emit (interp : C -> St -> St) c s :
  calls (emit interp c) s = [c].
Proof. reflexivity. Qed.

(** A loop whose body only makes calls of some kind makes only calls of
    that kind. *)
Lemma calls_for_Forall (P : C -> Prop) (body : nat -> @Prog St C unit) l :
  (forall k s, Forall P (calls (body k) s)) ->
  forall s, Forall P (calls (for_ l body) s).
Proof.
  intros Hbody. induction l as [|i l IH]; intros s; simpl.
  - constructor.
  - rewrite calls_bind. apply Forall_app. split; [apply Hbody | apply IH].
Qed.

(** A loop over the indices of a list held in the state, whose body
    rewrites the element at its index by [f], maps [f] over the list.
    [get]/[set] access the list; [f] may depend on a part [par] of the
    state that [set] leaves alone. *)
Section Loop.
Context {E P : Type}.
Variable get : St -> list E.
Variable set : list E -> St -> St.
Variable par : St -> P.
Variable f : P -> E -> E.
Variable body : nat -> @Prog St C unit.
Hypothesis get_set : forall l s, get (set l s) = l.
Hypothesis set_get : forall s, set (get s) s = s.
Hypothesis set_set : forall l l' s, set l (set l' s) = set l s.
Hypothesis par_set : forall l s, par (set l s) = par s.
Hypothesis exec_body :
  forall k s, exec (body k) s = set (alter (f (par s)) k (get s)) s.

Lemma exec_for_from (l pre : list E) s :
  get s = pre ++ l ->
  exec (for_ (seq (length pre) (length l)) body) s
  = set (pre ++ (f (par s) <$> l)) s.
Proof.
  revert pre s. induction l as [|o l IH]; intros pre s Hget; simpl.
  - rewrite <- Hget. symmetry. apply set_get.
  - rewrite exec_bind, exec_body, Hget.
    assert (Halter : alter (f (par s)) (length pre) (pre ++ o :: l)
                     = (pre ++ [f (par s) o]) ++ l).
    { rewrite alter_app_r_alt by lia.
      replace (length pre - length pre)%nat with 0%nat by lia.
      simpl. by rewrite <- app_assoc. }
    rewrite Halter.
    replace (S (length pre)) with (length (pre ++ [f (par s) o]))
      by (rewrite length_app; simpl; lia).
    rewrite IH by apply get_set.
    rewrite set_set, par_set. by rewrite <- app_assoc.
Qed.

Lemma exec_for_each s :
  exec (for_ (seq 0 (length (get s))) body) s = set (f (par s) <$> get s) s.
Proof. apply (exec_for_from (get s) [] s). reflexivity. Qed.
End Loop.
End ProgFacts.

(** ** The tutorial scene *)

(** C7: [preload] configures the base URL and queues exactly one image,
    ['sky'], under a relative path, so that the loader fetches it from the
    base URL; [create] makes exactly one call, which adds that image to the
    display list at (400, 300); [update] makes no call and changes nothing,
    in any state and over any number of frames. *)
Theorem tutorial_loads_and_shows_sky (e : Tutorial.Engine) :
  calls Tutorial.preload e
  = [Tutorial.LoadSetBaseURL "https://labs.phaser.io";
     Tutorial.LoadImage "sky" "assets/skies/space3.png"]
  /\ Tutorial.queue (exec Tutorial.preload e)
     = Tutorial.queue e ++ [("sky", "assets/skies/space3.png")]
  /\ Tutorial.fetched (exec Tutorial.preload Tutorial.boot)
     = [("sky", "https://labs.phaser.io/assets/skies/space3.png")]
  /\ calls Tutorial.create e = [Tutorial.AddImage 400 300 "sky"]
  /\ Tutorial.displayList (exec Tutorial.create e)
     = Tutorial.displayList e ++ [(400%Z, 300%Z, "sky")]
  /\ Tutorial.displayList
       (exec Tutorial.create (exec Tutorial.preload Tutorial.boot))
     = [(400%Z, 300%Z, "sky")]
  /\ exec Tutorial.update e = e
  /\ calls Tutorial.update e = []
  /\ forall n, Tutorial.frames n e = (e, []).
Proof.
  repeat split; try reflexivity.
  intros n. induction n as [|n IH]; simpl; [reflexivity|].
  rewrite IH. reflexivity.
Qed.

(** ** The game scene *)

Import Game.

(** *** What each callback does to the scene *)

Lemma exec_each group body s :
  exec (each group body) s = exec (for_ (seq 0 (length (group s))) body) s.
Proof. unfold each. rewrite exec_bind. reflexivity. Qed.

Lemma calls_each group body s :
  calls (each group body) s = calls (for_ (seq 0 (length (group s))) body) s.
Proof. unfold each. rewrite calls_bind. reflexivity. Qed.

Lemma alter_fixed {A} (f : A -> A) i (l : list A) :
  (forall o, l !! i = Some o -> f o = o) -> alter f i l = l.
Proof.
  intros Hf. apply list_eq. intros k.
  destruct (decide (i = k)) as [->|Hne].
  - rewrite list_lookup_alter_eq.
    destruct (l !! k) as [o|] eqn:Hk; simpl; [|done].
    by rewrite (Hf o).
  - by rewrite list_lookup_alter_ne.
Qed.

Lemma alter_same {A} (f g : A -> A) i (l : list A) :
  (forall o, l !! i = Some o -> f o = g o) -> alter f i l = alter g i l.
Proof.
  intros Hf. apply list_eq. intros k.
  destruct (decide (i = k)) as [->|Hne].
  - rewrite !list_lookup_alter_eq.
    destruct (l !! k) as [o|] eqn:Hk; simpl; [|done].
    by rewrite (Hf o).
  - by rewrite !list_lookup_alter_ne.
Qed.

(** The click handler asks for a restart when the game is over and does
    nothing else. *)
Lemma pointerdown_spec s :
  exec pointerdown s = s
  /\ calls pointerdown s = if gameOver s then [SceneRestart] else [].
Proof.
  unfold pointerdown. rewrite exec_bind, calls_bind.
  unfold value, exec, calls, gets; simpl.
  destruct (gameOver s); split; reflexivity.
Qed.

Lemma handle_PointerDown fb s :
  handle (PointerDown fb) s = if gameOver s then create fb else s.
Proof.
  simpl. destruct (pointerdown_spec s) as [-> ->].
  destruct (gameOver s); reflexivity.
Qed.

(** C6: the click handler calls [scene.restart()] exactly when [gameOver]
    is true, and the scene is then restarted (the click leads to the scene
    [create] builds); a click while [gameOver] is false makes no engine
    call and leaves the scene as it is. *)
Theorem click_restarts_iff_game_over (s : Scene) (fb : nat -> Q) :
  (In SceneRestart (calls pointerdown s) <-> gameOver s = true)
  /\ (gameOver s = true ->
      calls pointerdown s = [SceneRestart]
      /\ handle (PointerDown fb) s = create fb)
  /\ (gameOver s = false ->
      calls pointerdown s = [] /\ exec pointerdown s = s
      /\ handle (PointerDown fb) s = s).
Proof.
  rewrite handle_PointerDown.
  destruct (pointerdown_spec s) as [Hexec Hcalls]. rewrite Hexec, Hcalls.
  destruct (gameOver s); simpl.
  - split; [split; [reflexivity | intros _; by left]|].
    split; [done | intros; discriminate].
  - split; [split; [intros [] | discriminate]|].
    split; [intros; discriminate | done].
Qed.

Lemma exec_call c s : exec (call c) s = interp c s.
Proof. reflexivity. Qed.

Lemma calls_call c s : calls (call c) s = [c].
Proof. reflexivity. Qed.

(** One step through a program: open a [bind], read, write or call. *)
Ltac prog_step :=
  repeat progress
    (rewrite ?exec_bind, ?exec_gets, ?value_gets, ?exec_modify, ?exec_call,
       ?exec_ret, ?exec_when; cbv beta).

(** The same for the log of calls. *)
Ltac prog_calls :=
  repeat progress
    (rewrite ?calls_bind, ?calls_gets, ?calls_modify, ?calls_call, ?calls_ret,
       ?calls_when, ?exec_bind, ?exec_gets, ?value_gets, ?exec_modify,
       ?exec_call, ?exec_ret, ?exec_when; cbv beta).

(** The laws of field access, by cases on the record. *)
Ltac lens :=
  intros;
  repeat match goal with s : Scene |- _ => destruct s end;
  reflexivity.

(** [hitBomb] stops the physics, marks the player and ends the game. *)
Lemma exec_hitBomb p b s :
  exec (hitBomb p b) s
  = set_gameOverTextVisible true
      (set_gameOver true
         (update_object p (set_anim (Some "turn"))
            (update_object p (set_tint (Some 16711680%Z))
               (set_physicsPaused true s)))).
Proof. unfold hitBomb. rewrite !exec_bind. reflexivity. Qed.

Lemma exec_shade_new_bomb j s :
  exec (shade_new_bomb j) s = set_bombs (alter ensure_pipeline j (bombs s)) s.
Proof.
  unfold shade_new_bomb. rewrite exec_bind, exec_when.
  unfold value, exec, gets, call, emit; simpl.
  destruct (bombs s !! j) as [o|] eqn:Hj; simpl.
  - destruct (pipeline o) as [q|] eqn:Hp; simpl.
    + rewrite alter_fixed; [by destruct s|].
      intros o' Ho'. unfold ensure_pipeline.
      assert (o' = o) as -> by congruence. by rewrite Hp.
    + f_equal. apply alter_same. intros o' Ho'. unfold ensure_pipeline.
      assert (o' = o) as -> by congruence. by rewrite Hp.
  - f_equal. apply alter_same. intros o' Ho'. congruence.
Qed.

Lemma exec_update cursors s :
  exec (update cursors) s
  = if gameOver s then s
    else
      let s1 := set_player (steer cursors (player s)) s in
      if shaderEnabled s
      then set_bombs (ensure_pipeline <$> bombs s) s1
      else s1.
Proof.
  unfold update. prog_step.
  destruct (gameOver s) eqn:Hover; [reflexivity|].
  assert (Hloop : forall s',
             exec (each (fun s => bombs s) shade_new_bomb) s'
             = set_bombs (ensure_pipeline <$> bombs s') s').
  { intros s'. rewrite exec_each.
    rewrite (exec_for_each (fun s => bombs s) set_bombs (fun _ => tt)
               (fun _ => ensure_pipeline)); try lens.
    intros k s''. apply exec_shade_new_bomb. }
  unfold steer.
  destruct (left cursors), (right cursors); prog_step; simpl;
    destruct ((up cursors || space cursors) && touchingDown (player s));
    simpl; destruct (shaderEnabled s); try reflexivity;
    rewrite Hloop; reflexivity.
Qed.

(** The calls of [update] in a running game: the horizontal velocity and
    the animation, then the jump if there is one, then only pipeline
    assignments to bombs. *)
Lemma calls_update cursors s :
  gameOver s = false ->
  exists rest,
    calls (update cursors) s
    = (if left cursors
       then [SetVelocityX Player (-160); AnimsPlay Player "left" true]
       else if right cursors
       then [SetVelocityX Player 160; AnimsPlay Player "right" true]
       else [SetVelocityX Player 0; AnimsPlay Player "turn" false])
      ++ (if (up cursors || space cursors) && touchingDown (player s)
          then [SetVelocityY Player (-350)] else [])
      ++ rest
    /\ Forall (fun c => exists j, c = SetPipeline (Bomb j) "Wave") rest.
Proof.
  intros Hover. unfold update. prog_calls. rewrite Hover.
  assert (Hloop : forall s',
             Forall (fun c => exists j, c = SetPipeline (Bomb j) "Wave")
               (calls (each (fun s => bombs s) shade_new_bomb) s')).
  { intros s'. rewrite calls_each. apply calls_for_Forall. intros k s''.
    unfold shade_new_bomb. prog_calls. simpl.
    destruct (negb _); repeat constructor. by exists k. }
  destruct (left cursors), (right cursors); prog_calls; simpl;
    destruct ((up cursors || space cursors) && touchingDown (player s));
    simpl; destruct (shaderEnabled s);
    eexists; (split; [reflexivity|]); first [apply Hloop | constructor].
Qed.

(** C9: in a frame in which the game is not over, [update] sets the
    player's horizontal velocity to -160 if the left cursor is down, else
    to 160 if the right cursor is down, else to 0, with exactly one
    [setVelocityX] call; it sets the vertical velocity to -350 when the up
    cursor or space is down and the body touches the ground, and otherwise
    makes no [setVelocityY] call and leaves the vertical velocity as it
    was. *)
Theorem update_sets_player_velocity (cursors : Cursors) (s : Scene) :
  gameOver s = false ->
  let vx :=
    (if left cursors then -160 else if right cursors then 160 else 0)%Q in
  let jump := (up cursors || space cursors) && touchingDown (player s) in
  let s' := exec (update cursors) s in
  velocityX (player s') = vx
  /\ velocityY (player s')
     = (if jump then (-350)%Q else velocityY (player s))
  /\ exists key ignore rest,
       calls (update cursors) s
       = SetVelocityX Player vx :: AnimsPlay Player key ignore
           :: (if jump then [SetVelocityY Player (-350)] else []) ++ rest
       /\ Forall (fun c => exists j, c = SetPipeline (Bomb j) "Wave") rest.
Proof.
  intros Hover vx jump s'. subst s'. rewrite exec_update, Hover. cbn zeta.
  split; [|split].
  - unfold steer. fold jump. subst vx.
    destruct (left cursors), (right cursors), jump, (shaderEnabled s);
      reflexivity.
  - unfold steer. fold jump.
    destruct (left cursors), (right cursors), jump, (shaderEnabled s);
      reflexivity.
  - destruct (calls_update cursors s Hover) as (rest & Hcalls & Hrest).
    fold jump in Hcalls. subst vx.
    destruct (left cursors), (right cursors); simpl in Hcalls;
      do 3 eexists; (split; [exact Hcalls | exact Hrest]).
Qed.

Lemma update_sets_player_velocity_witness :
  velocityX (player (exec (update (mkCursors true true true false))
                       (create fb_half))) = (-160)%Q.
Proof.
  exact (proj1 (update_sets_player_velocity (mkCursors true true true false)
                  (create fb_half) eq_refl)).
Defined.

(** *** The shader toggle *)

Lemma exec_each_call get set (c : nat -> Call) (f : GameObject -> GameObject)
    s :
  (forall l s, get (set l s) = l) ->
  (forall s, set (get s) s = s) ->
  (forall l l' s, set l (set l' s) = set l s) ->
  (forall k s, interp (c k) s = set (alter f k (get s)) s) ->
  exec (each get (fun k => call (c k))) s = set (f <$> get s) s.
Proof.
  intros Hgs Hsg Hss Hc. rewrite exec_each.
  apply (exec_for_each get set (fun _ => tt) (fun _ => f)); auto.
Qed.

Lemma exec_keydown_S s :
  exec keydown_S s
  = let b := negb (shaderEnabled s) in
    set_bombs (repipe b <$> bombs s)
      (set_player (repipe b (player s))
         (set_stars (repipe b <$> stars s)
            (set_platforms (repipe b <$> platforms s)
               (set_sky (repipe b (sky s)) (set_shaderEnabled b s))))).
Proof.
  unfold keydown_S. prog_step. simpl shaderEnabled.
  destruct (shaderEnabled s); simpl negb; cbv iota zeta; prog_step.
  - rewrite (exec_each_call (fun s => platforms s) set_platforms _
               (repipe false)) by lens.
    rewrite (exec_each_call (fun s => stars s) set_stars _
               (repipe false)) by lens.
    rewrite (exec_each_call (fun s => bombs s) set_bombs _
               (repipe false)) by lens.
    reflexivity.
  - rewrite (exec_each_call (fun s => platforms s) set_platforms _
               (repipe true)) by lens.
    rewrite (exec_each_call (fun s => stars s) set_stars _
               (repipe true)) by lens.
    rewrite (exec_each_call (fun s => bombs s) set_bombs _
               (repipe true)) by lens.
    reflexivity.
Qed.

Lemma repipe_fixed b o : pipeline o = pipeline_for b -> repipe b o = o.
Proof. intros H. unfold repipe. rewrite <- H. by destruct o. Qed.

Lemma repipe_all_fixed b (l : list GameObject) :
  Forall (fun o => pipeline o = pipeline_for b) l -> repipe b <$> l = l.
Proof.
  induction 1 as [|o l Ho _ IH]; [done|].
  by rewrite fmap_cons, repipe_fixed, IH.
Qed.

Lemma repipe_repipe b b' o : repipe b (repipe b' o) = repipe b o.
Proof. reflexivity. Qed.

Lemma repipe_all_repipe b b' (l : list GameObject) :
  repipe b <$> (repipe b' <$> l) = repipe b <$> l.
Proof. rewrite <- list_fmap_compose. reflexivity. Qed.

(** Two presses in a row give the scene back, when the pipelines follow
    the flag. *)
Lemma keydown_S_twice s :
  follows_flag s -> exec keydown_S (exec keydown_S s) = s.
Proof.
  intros (Hsky & Hplat & Hstars & Hplayer & Hbombs).
  rewrite !exec_keydown_S. cbn zeta. simpl.
  rewrite negb_involutive, !repipe_all_repipe, !repipe_repipe.
  rewrite !repipe_all_fixed, !repipe_fixed by assumption.
  by destruct s.
Qed.

(** *** Collecting a star *)

Lemma exec_put_back k s :
  exec (put_back k) s
  = set_stars (alter (respawn (shaderEnabled s)) k (stars s)) s.
Proof.
  unfold put_back. prog_step. simpl.
  assert (Hcx :
    alter (reenable true (from_option (fun o => x o) 0%Q (stars s !! k))
             0 true true) k (stars s)
    = alter (fun o => reenable true (x o) 0 true true o) k (stars s)).
  { apply alter_same. intros o ->. reflexivity. }
  rewrite Hcx. unfold respawn.
  destruct (shaderEnabled s); simpl; [|reflexivity].
  rewrite list_alter_alter_eq. reflexivity.
Qed.

Lemma alter_last {A} (f : A -> A) (l : list A) (a : A) :
  alter f (length l) (l ++ [a]) = l ++ [f a].
Proof.
  rewrite alter_app_r_alt by lia.
  replace (length l - length l)%nat with 0%nat by lia. reflexivity.
Qed.

Lemma exec_collectStar between i s :
  exec (collectStar between Player (Star i)) s
  = let s1 := collected i s in
    if Nat.eqb (countActive (stars s1)) 0
    then
      set_bombs
        (bombs s
         ++ [spawn_bomb (shaderEnabled s)
               (if Qltb (x (player s)) 400 then between 400 800
                else between 0 400)%Z
               (between (-200) 200)%Z])
        (set_stars (respawn (shaderEnabled s) <$> stars s1) s1)
    else s1.
Proof.
  unfold collectStar. prog_step.
  change (interp (SetText _) _) with (collected i s).
  cbn zeta. set (s1 := collected i s).
  destruct (Nat.eqb (countActive (stars s1)) 0); [|reflexivity].
  prog_step. rewrite exec_each.
  rewrite (exec_for_each (fun s => stars s) set_stars
             (fun s => shaderEnabled s) respawn)
    by (try lens; apply exec_put_back).
  simpl. rewrite !alter_last.
  unfold spawn_bomb.
  destruct (shaderEnabled s); simpl; rewrite ?alter_last; reflexivity.
Qed.

Lemma calls_collectStar between i s :
  exists rest,
    calls (collectStar between Player (Star i)) s
    = DisableBody (Star i) true true
        :: SetText ("Score: " +:+ Number_toString (score s + 10)) :: rest.
Proof. unfold collectStar. prog_calls. simpl. eexists. reflexivity. Qed.

Lemma disable_off dg hg o :
  enable (disable dg hg o) = false
  /\ (dg = true -> active (disable dg hg o) = false)
  /\ (hg = true -> visible (disable dg hg o) = false).
Proof. destruct dg, hg; simpl; repeat split; congruence. Qed.

(** C2: every invocation of [collectStar] starts by calling
    [star.disableBody(true, true)], which leaves that star with a disabled
    body, inactive and hidden; it adds exactly 10 to the score and sets the
    score text to ['Score: '] followed by the new score.  On return the star
    is still disabled whenever another star is still active (otherwise all
    stars are put back, see C8). *)
Theorem collectStar_adds_ten (between : Z -> Z -> Z) (i : nat) (s : Scene) :
  let s0 := interp (DisableBody (Star i) true true) s in
  let s' := exec (collectStar between Player (Star i)) s in
  score s' = (score s + 10)%Z
  /\ scoreText s' = "Score: " +:+ Number_toString (score s + 10)
  /\ (exists rest,
        calls (collectStar between Player (Star i)) s
        = DisableBody (Star i) true true
            :: SetText ("Score: " +:+ Number_toString (score s + 10)) :: rest)
  /\ (forall o, stars s0 !! i = Some o ->
        enable o = false /\ active o = false /\ visible o = false)
  /\ (countActive (stars s0) <> 0%nat ->
      forall o, stars s' !! i = Some o ->
        enable o = false /\ active o = false /\ visible o = false).
Proof.
  intros s0 s'. subst s0 s'. rewrite exec_collectStar. cbn zeta.
  assert (Hoff : forall o,
            alter (disable true true) i (stars s) !! i = Some o ->
            enable o = false /\ active o = false /\ visible o = false).
  { intros o. rewrite list_lookup_alter_eq.
    destruct (stars s !! i) as [o0|]; simpl; [|discriminate].
    intros [= <-]. destruct (disable_off true true o0) as (? & ? & ?). auto. }
  split; [|split; [|split; [|split]]].
  - destruct (Nat.eqb _ 0); reflexivity.
  - destruct (Nat.eqb _ 0); reflexivity.
  - apply calls_collectStar.
  - exact Hoff.
  - simpl. intros Hactive.
    destruct (Nat.eqb_spec
                (countActive (alter (disable true true) i (stars s))) 0)
      as [Hz|_]; [contradiction|].
    exact Hoff.
Qed.

(** C8: when the star just disabled was the last active one, every star of
    the group is put back at its own x and at y = 0, enabled, active and
    shown, and exactly one bomb is added, at an integer x drawn between 400
    and 800 if the player's x is below 400 and between 0 and 400 otherwise;
    when a star is still active, the stars stay as the disabling left them
    and the bombs are unchanged.  [Phaser.Math.Between(lo, hi)] is taken to
    return an integer between [lo] and [hi]. *)
Theorem collectStar_last_star (between : Z -> Z -> Z) (i : nat) (s : Scene) :
  (forall lo hi, (lo <= hi)%Z -> (lo <= between lo hi <= hi)%Z) ->
  let s0 := interp (DisableBody (Star i) true true) s in
  let s' := exec (collectStar between Player (Star i)) s in
  (countActive (stars s0) = 0%nat ->
     length (stars s') = length (stars s)
     /\ (forall k o, stars s !! k = Some o ->
           exists o', stars s' !! k = Some o'
             /\ x o' = x o /\ y o' = 0%Q
             /\ enable o' = true /\ active o' = true /\ visible o' = true)
     /\ exists b bx,
          bombs s' = bombs s ++ [b] /\ x b = inject_Z bx /\ y b = 16%Q
          /\ ((x (player s) < 400)%Q -> (400 <= bx <= 800)%Z)
          /\ (~ (x (player s) < 400)%Q -> (0 <= bx <= 400)%Z))
  /\ (countActive (stars s0) <> 0%nat ->
      stars s' = stars s0 /\ bombs s' = bombs s).
Proof.
  intros Hbetween s0 s'. subst s0 s'. rewrite exec_collectStar. cbn zeta.
  simpl stars at 1 3 5. simpl.
  set (l1 := alter (disable true true) i (stars s)).
  destruct (Nat.eqb_spec (countActive l1) 0) as [Hz|Hnz]; split;
    try (intros; contradiction); try (intros _; split; reflexivity).
  intros _. simpl. split; [|split].
  - subst l1. by rewrite length_fmap, length_alter.
  - intros k o Hk. subst l1. rewrite list_lookup_fmap.
    destruct (decide (i = k)) as [->|Hne].
    + rewrite list_lookup_alter_eq, Hk. simpl. eexists. split; [reflexivity|].
      unfold respawn. destruct (shaderEnabled s); simpl; auto.
    + rewrite list_lookup_alter_ne, Hk by done. simpl.
      eexists. split; [reflexivity|].
      unfold respawn. destruct (shaderEnabled s); simpl; auto.
  - unfold spawn_bomb, Qltb.
    destruct (Qle_bool 400 (x (player s))) eqn:Hle; simpl;
      eexists; eexists; (split; [reflexivity|]);
      (split; [destruct (shaderEnabled s); reflexivity|]);
      (split; [destruct (shaderEnabled s); reflexivity|]); split.
    + intros Hlt. apply Qle_bool_iff in Hle.
      exfalso. exact (Qlt_not_le _ _ Hlt Hle).
    + intros _. apply Hbetween. lia.
    + intros _. apply Hbetween. lia.
    + intros Hnlt. exfalso. apply Hnlt. apply Qnot_le_lt.
      intros Hle'. apply Qle_bool_iff in Hle'. congruence.
Qed.

(** *** The scene over a run *)

Lemma score_handle e s :
  score (handle e s)
  = match e with
    | Overlap _ _ => (score s + 10)%Z
    | PointerDown _ => if gameOver s then 0%Z else score s
    | _ => score s
    end.
Proof.
  destruct e as [c|i b|j|fb| |mp ms mb].
  - unfold handle. rewrite exec_update.
    destruct (gameOver s), (shaderEnabled s); reflexivity.
  - unfold handle. rewrite exec_collectStar. cbn zeta.
    destruct (Nat.eqb _ 0); reflexivity.
  - unfold handle. rewrite exec_hitBomb. reflexivity.
  - rewrite handle_PointerDown. destruct (gameOver s); reflexivity.
  - unfold handle. rewrite exec_keydown_S. reflexivity.
  - reflexivity.
Qed.

Lemma scoreText_handle e s :
  scoreText (handle e s)
  = match e with
    | Overlap _ _ => "Score: " +:+ Number_toString (score s + 10)
    | PointerDown _ => if gameOver s then "Score: 0" else scoreText s
    | _ => scoreText s
    end.
Proof.
  destruct e as [c|i b|j|fb| |mp ms mb].
  - unfold handle. rewrite exec_update.
    destruct (gameOver s), (shaderEnabled s); reflexivity.
  - unfold handle. rewrite exec_collectStar. cbn zeta.
    destruct (Nat.eqb _ 0); reflexivity.
  - unfold handle. rewrite exec_hitBomb. reflexivity.
  - rewrite handle_PointerDown. destruct (gameOver s); reflexivity.
  - unfold handle. rewrite exec_keydown_S. reflexivity.
  - reflexivity.
Qed.

Lemma gameOver_handle e s :
  gameOver (handle e s)
  = match e with
    | Collide _ => true
    | PointerDown _ => false
    | _ => gameOver s
    end.
Proof.
  destruct e as [c|i b|j|fb| |mp ms mb].
  - unfold handle. rewrite exec_update.
    destruct (gameOver s) eqn:Hover, (shaderEnabled s); simpl; congruence.
  - unfold handle. rewrite exec_collectStar. cbn zeta.
    destruct (Nat.eqb _ 0); reflexivity.
  - unfold handle. rewrite exec_hitBomb. reflexivity.
  - rewrite handle_PointerDown. destruct (gameOver s) eqn:Hover; auto.
  - unfold handle. rewrite exec_keydown_S. reflexivity.
  - reflexivity.
Qed.

Lemma gameOverTextVisible_handle e s :
  gameOverTextVisible (handle e s)
  = match e with
    | Collide _ => true
    | PointerDown _ => if gameOver s then false else gameOverTextVisible s
    | _ => gameOverTextVisible s
    end.
Proof.
  destruct e as [c|i b|j|fb| |mp ms mb].
  - unfold handle. rewrite exec_update.
    destruct (gameOver s), (shaderEnabled s); reflexivity.
  - unfold handle. rewrite exec_collectStar. cbn zeta.
    destruct (Nat.eqb _ 0); reflexivity.
  - unfold handle. rewrite exec_hitBomb. reflexivity.
  - rewrite handle_PointerDown. destruct (gameOver s); reflexivity.
  - unfold handle. rewrite exec_keydown_S. reflexivity.
  - reflexivity.
Qed.

Lemma score_nonneg s : reachable s -> (0 <= score s)%Z.
Proof.
  induction 1 as [fb|s e _ IH]; [simpl; lia|].
  rewrite score_handle.
  destruct e; try assumption; [lia | destruct (gameOver s); [lia|assumption]].
Qed.

Lemma text_follows_gameOver s :
  reachable s -> gameOverTextVisible s = gameOver s.
Proof.
  induction 1 as [fb|s e _ IH]; [reflexivity|].
  rewrite gameOverTextVisible_handle, gameOver_handle.
  destruct e; try assumption; try reflexivity.
  destruct (gameOver s) eqn:Hover; congruence.
Qed.

(** The pipelines follow the flag in every scene the game can be in. *)

Lemma Forall_imap_pipeline p (f : nat -> GameObject -> GameObject) l :
  (forall i o, pipeline (f i o) = pipeline o) ->
  Forall (fun o => pipeline o = p) l ->
  Forall (fun o => pipeline o = p) (imap f l).
Proof.
  intros Hf Hl. rewrite Forall_lookup in Hl. apply Forall_lookup. intros i o.
  rewrite list_lookup_imap. destruct (l !! i) as [o0|] eqn:Hi; simpl; [|done].
  intros [= <-]. rewrite Hf. exact (Hl i o0 Hi).
Qed.

Lemma Forall_fmap_pipeline p q (f : GameObject -> GameObject) l :
  (forall o, pipeline o = p -> pipeline (f o) = q) ->
  Forall (fun o => pipeline o = p) l ->
  Forall (fun o => pipeline o = q) (f <$> l).
Proof.
  intros Hf Hl. apply Forall_fmap. eapply Forall_impl; [exact Hl|].
  intros o Ho. by apply Hf.
Qed.

Lemma Forall_alter_pipeline p (f : GameObject -> GameObject) i l :
  (forall o, pipeline (f o) = pipeline o) ->
  Forall (fun o => pipeline o = p) l ->
  Forall (fun o => pipeline o = p) (alter f i l).
Proof.
  intros Hf Hl. rewrite Forall_lookup in Hl. apply Forall_lookup. intros k o.
  destruct (decide (i = k)) as [->|Hne].
  - rewrite list_lookup_alter_eq.
    destruct (l !! k) as [o0|] eqn:Hk; simpl; [|done].
    intros [= <-]. rewrite Hf. exact (Hl k o0 Hk).
  - rewrite list_lookup_alter_ne by done. apply Hl.
Qed.

Lemma ensure_pipeline_fixed b o :
  pipeline o = pipeline_for b -> pipeline (ensure_pipeline o) = pipeline_for b.
Proof. intros H. unfold ensure_pipeline. by rewrite H. Qed.

Lemma respawn_pipeline b o :
  pipeline o = pipeline_for b -> pipeline (respawn b o) = pipeline_for b.
Proof.
  intros H. unfold respawn. destruct b; simpl; [reflexivity | exact H].
Qed.

Lemma follows_flag_create fb : follows_flag (create fb).
Proof. unfold follows_flag. simpl. repeat split; repeat constructor. Qed.

Lemma follows_flag_handle e s : follows_flag s -> follows_flag (handle e s).
Proof.
  intros (Hsky & Hplat & Hstars & Hplayer & Hbombs).
  destruct e as [c|i b|j|fb| |mp ms mb].
  - unfold handle. rewrite exec_update.
    destruct (gameOver s); [by repeat split|].
    cbn zeta. unfold follows_flag.
    destruct (shaderEnabled s) eqn:Hsh; simpl; rewrite Hsh;
      (repeat split; try assumption;
       [unfold steer;
        destruct (left c), (right c),
          ((up c || space c) && touchingDown (player s));
        exact Hplayer | ..]).
    eapply Forall_fmap_pipeline; [|exact Hbombs].
    intros o. apply ensure_pipeline_fixed.
  - unfold handle. rewrite exec_collectStar. cbn zeta. unfold follows_flag.
    assert (Hdis : Forall (fun o => pipeline o = pipeline_for (shaderEnabled s))
                     (alter (disable true true) i (stars s))).
    { apply Forall_alter_pipeline; [reflexivity | exact Hstars]. }
    destruct (Nat.eqb _ 0); simpl; repeat split; try assumption.
    + eapply Forall_fmap_pipeline; [|exact Hdis].
      intros o. apply respawn_pipeline.
    + apply Forall_app. split; [assumption|]. repeat constructor.
      unfold spawn_bomb. by destruct (shaderEnabled s).
  - unfold handle. rewrite exec_hitBomb. by repeat split.
  - rewrite handle_PointerDown.
    destruct (gameOver s); [apply follows_flag_create | by repeat split].
  - unfold handle. rewrite exec_keydown_S. cbn zeta. unfold follows_flag. simpl.
    repeat split; try reflexivity;
      (eapply Forall_fmap_pipeline; [|eassumption]); reflexivity.
  - unfold follows_flag. simpl. repeat split; try assumption.
    + by apply Forall_imap_pipeline.
    + by apply Forall_imap_pipeline.
Qed.

Lemma reachable_follows_flag s : reachable s -> follows_flag s.
Proof.
  induction 1 as [fb|s e _ IH];
    [apply follows_flag_create | by apply follows_flag_handle].
Qed.

(** *** Concrete runs *)

Lemma reachable_run es s : reachable s -> reachable (run es s).
Proof.
  revert s. induction es as [|e es IH]; intros s Hs; [exact Hs|].
  simpl. apply IH. by constructor.
Defined.

Lemma collectStar_adds_ten_witness :
  score (exec (collectStar between_lo Player (Star 3)) (create fb_half)) = 10%Z
  /\ forall o,
       stars (exec (collectStar between_lo Player (Star 3)) (create fb_half))
         !! 3%nat = Some o ->
       enable o = false /\ active o = false /\ visible o = false.
Proof.
  destruct (collectStar_adds_ten between_lo 3 (create fb_half))
    as (Hscore & _ & _ & _ & Hoff).
  split; [exact Hscore|]. apply Hoff. vm_compute. discriminate.
Defined.

Lemma collectStar_last_star_witness :
  exists b bx,
    bombs (exec (collectStar between_lo Player (Star 11)) one_star_left)
    = bombs one_star_left ++ [b]
    /\ x b = inject_Z bx /\ y b = 16%Q
    /\ ((x (player one_star_left) < 400)%Q -> (400 <= bx <= 800)%Z)
    /\ (~ (x (player one_star_left) < 400)%Q -> (0 <= bx <= 400)%Z).
Proof.
  assert (Hdraw : forall lo hi,
             (lo <= hi)%Z -> (lo <= between_lo lo hi <= hi)%Z)
    by (unfold between_lo; lia).
  destruct (collectStar_last_star between_lo 11 one_star_left Hdraw)
    as [Hlast _].
  apply Hlast. vm_compute. reflexivity.
Defined.

Lemma click_restarts_iff_game_over_witness :
  handle (PointerDown fb_half) game_over_scene = create fb_half
  /\ handle (PointerDown fb_half) first_bomb = first_bomb.
Proof.
  destruct (click_restarts_iff_game_over game_over_scene fb_half)
    as (_ & Hover & _).
  destruct (click_restarts_iff_game_over first_bomb fb_half)
    as (_ & _ & Hrun).
  split; [apply Hover | apply Hrun]; vm_compute; reflexivity.
Defined.

(** *** Game over and the score *)

Lemma physicsPaused_handle e s :
  quiet e = true -> physicsPaused s = true ->
  physicsPaused (handle e s) = true.
Proof.
  intros Hq Hp. destruct e as [c|i b|j|fb| |mp ms mb]; try discriminate.
  - unfold handle. rewrite exec_update.
    destruct (gameOver s), (shaderEnabled s); exact Hp.
  - unfold handle. rewrite exec_hitBomb. reflexivity.
  - unfold handle. rewrite exec_keydown_S. exact Hp.
  - exact Hp.
Qed.




(** C3: in every scene the game can be in, the score is an integer that
    is not negative; an event that does not restart the scene never lowers
    it; the restart (a click while the game is over, which runs [create]
    again) puts it back to zero, as [create] always does. *)
Theorem score_never_decreases (s : Scene) :
  reachable s ->
  (0 <= score s)%Z
  /\ (forall e, restarts e s = false -> (score s <= score (handle e s))%Z)
  /\ (forall e, restarts e s = true -> score (handle e s) = 0%Z)
  /\ (forall fb, score (create fb) = 0%Z).
Proof.
  intros Hs. split; [by apply score_nonneg|]. split; [|split].
  - intros e He. rewrite score_handle.
    destruct e; simpl in He; try lia. rewrite He. lia.
  - intros e He. rewrite score_handle.
    destruct e; simpl in He; try discriminate. by rewrite He.
  - reflexivity.
Qed.

Lemma score_never_decreases_witness :
  (0 <= score game_over_scene)%Z
  /\ (score game_over_scene
      <= score (handle (Overlap 0 between_lo) game_over_scene))%Z
  /\ score (handle (PointerDown fb_half) game_over_scene) = 0%Z.
Proof.
  assert (Hr : reachable game_over_scene).
  { unfold game_over_scene, first_bomb. constructor.
    apply reachable_run. constructor. }
  destruct (score_never_decreases game_over_scene Hr) as (H0 & Hup & Hre & _).
  split; [exact H0|]. split; [by apply Hup | by apply Hre].
Defined.

(** C4: two presses of S in a row give back the [shaderEnabled] flag, in
    any scene; in every scene the game can be in they also give back the
    pipeline of the sky, of every platform, of every star, of the player
    and of every bomb: the whole scene is as it was before the first
    press. *)
Theorem shader_toggle_twice (s : Scene) :
  let s2 := exec keydown_S (exec keydown_S s) in
  shaderEnabled s2 = shaderEnabled s
  /\ (reachable s ->
      pipeline (sky s2) = pipeline (sky s)
      /\ (fun o => pipeline o) <$> platforms s2
         = (fun o => pipeline o) <$> platforms s
      /\ (fun o => pipeline o) <$> stars s2 = (fun o => pipeline o) <$> stars s
      /\ pipeline (player s2) = pipeline (player s)
      /\ (fun o => pipeline o) <$> bombs s2 = (fun o => pipeline o) <$> bombs s
      /\ s2 = s).
Proof.
  intros s2. split.
  - subst s2. rewrite !exec_keydown_S. simpl. apply negb_involutive.
  - intros Hs.
    assert (H2 : s2 = s)
      by (apply keydown_S_twice, reachable_follows_flag, Hs).
    rewrite H2. by repeat split.
Qed.

Lemma shader_toggle_twice_witness :
  exec keydown_S (exec keydown_S first_bomb) = first_bomb.
Proof.
  assert (Hr : reachable first_bomb).
  { unfold first_bomb. apply reachable_run. constructor. }
  destruct (shader_toggle_twice first_bomb) as [_ Hpipes].
  destruct (Hpipes Hr) as (_ & _ & _ & _ & _ & Hsame). exact Hsame.
Defined.

(** The pipelines come back because they follow the flag: on a record
    whose flag is off while everything renders with Wave, which no run of
    the game produces, the second press leaves the sky on the default
    pipeline. *)
Lemma toggle_twice_needs_follows_flag :
  let s := set_shaderEnabled false (create fb_half) in
  ~ follows_flag s
  /\ pipeline (sky s) = Some WavePipeline
  /\ pipeline (sky (exec keydown_S (exec keydown_S s))) = Some DefaultPipeline.
Proof.
  split; [|split; reflexivity].
  intros (Hsky & _). discriminate Hsky.
Qed.

(** C10: in every scene the game can be in, the game-over text is visible
    exactly when [gameOver] is true.  [create] sets both to false;
    [hitBomb] sets both to true; every other event that does not restart
    the scene leaves both as they are. *)
Theorem game_over_text_follows_flag (s : Scene) :
  reachable s ->
  gameOverTextVisible s = gameOver s
  /\ (forall fb, gameOver (create fb) = false
                 /\ gameOverTextVisible (create fb) = false)
  /\ (forall j, gameOver (handle (Collide j) s) = true
                /\ gameOverTextVisible (handle (Collide j) s) = true)
  /\ (forall e, is_collide e = false -> restarts e s = false ->
        gameOver (handle e s) = gameOver s
        /\ gameOverTextVisible (handle e s) = gameOverTextVisible s).
Proof.
  intros Hs. split; [by apply text_follows_gameOver|].
  split; [by split|]. split.
  - intros j. by rewrite gameOver_handle, gameOverTextVisible_handle.
  - intros e Hc Hr. rewrite gameOver_handle, gameOverTextVisible_handle.
    destruct e; simpl in Hc, Hr; try discriminate; try (by split).
    rewrite Hr. by split.
Qed.

Lemma game_over_text_follows_flag_witness :
  gameOverTextVisible game_over_scene = gameOver game_over_scene
  /\ gameOver (handle KeyDownS game_over_scene) = gameOver game_over_scene.
Proof.
  assert (Hr : reachable game_over_scene).
  { unfold game_over_scene, first_bomb. constructor.
    apply reachable_run. constructor. }
  destruct (game_over_text_follows_flag game_over_scene Hr)
    as (Heq & _ & _ & Hother).
  split; [exact Heq|]. by apply Hother.
Defined.

(** * Further properties of the code *)

(** ** The frame time of the shader pipeline *)

Lemma one_hundredth_bits :
  WaveShaderPipeline.one_hundredth = S754_finite false 5764607523034235 (-59).
Proof. vm_compute. reflexivity. Qed.




Lemma time_frames_shift n (p q : WaveShaderPipeline.Pipeline) :
  WaveShaderPipeline.time q
  = WaveShaderPipeline.add (WaveShaderPipeline.time p)
      WaveShaderPipeline.one_hundredth ->
  WaveShaderPipeline.time (WaveShaderPipeline.frames n q)
  = WaveShaderPipeline.time (WaveShaderPipeline.frames (S n) p).
Proof.
  intros Hq. induction n as [|n IH]; [exact Hq|].
  change (WaveShaderPipeline.time (WaveShaderPipeline.frames (S n) q))
    with (WaveShaderPipeline.add
            (WaveShaderPipeline.time (WaveShaderPipeline.frames n q))
            WaveShaderPipeline.one_hundredth).
  rewrite IH. reflexivity.
Qed.

Lemma rising_sound n (p : WaveShaderPipeline.Pipeline) :
  WaveShaderPipeline.rising n (WaveShaderPipeline.time p) = true ->
  forall k, (k < n)%nat ->
    WaveShaderPipeline.ltb
      (WaveShaderPipeline.time (WaveShaderPipeline.frames k p))
      (WaveShaderPipeline.time (WaveShaderPipeline.frames (S k) p)) = true.
Proof.
  revert p. induction n as [|n IH]; intros p Hr k Hk; [lia|].
  cbn [WaveShaderPipeline.rising] in Hr. cbv zeta in Hr.
  apply andb_true_iff in Hr as [Hfirst Hrest].
  destruct k as [|k]; [exact Hfirst|].
  set (q := exec WaveShaderPipeline.onPreRender p).
  assert (Hq : WaveShaderPipeline.time q
               = WaveShaderPipeline.add (WaveShaderPipeline.time p)
                   WaveShaderPipeline.one_hundredth) by reflexivity.
  rewrite <- (time_frames_shift k p q Hq).
  rewrite <- (time_frames_shift (S k) p q Hq).
  apply IH; [|lia]. rewrite Hq. exact Hrest.
Qed.

Lemma rising_for_an_hour :
  WaveShaderPipeline.rising WaveShaderPipeline.hour
    (WaveShaderPipeline.time WaveShaderPipeline.constructor) = true.
Proof. vm_compute. reflexivity. Qed.




(** X3: for one hour of frames at 60 per second after the constructor
    (216000 calls of [onPreRender]), the time stored, hence uploaded in the
    next frame, is each time strictly greater, as doubles, than the one
    before: over that span no increment by 0.01 is lost to rounding. *)
Theorem time_rises_for_an_hour (k : nat) :
  (k < WaveShaderPipeline.hour)%nat ->
  WaveShaderPipeline.ltb
    (WaveShaderPipeline.time
       (WaveShaderPipeline.frames k WaveShaderPipeline.constructor))
    (WaveShaderPipeline.time
       (WaveShaderPipeline.frames (S k) WaveShaderPipeline.constructor))
  = true.
Proof. apply rising_sound. exact rising_for_an_hour. Qed.

Lemma time_rises_for_an_hour_witness :
  WaveShaderPipeline.ltb
    (WaveShaderPipeline.time
       (WaveShaderPipeline.frames 6 WaveShaderPipeline.constructor))
    (WaveShaderPipeline.time
       (WaveShaderPipeline.frames 7 WaveShaderPipeline.constructor))
  = true.
Proof.
  apply (time_rises_for_an_hour 6).
  apply Nat.ltb_lt. vm_compute. reflexivity.
Defined.

(** ** More on [update] *)

Lemma steer_steer c o : steer c (steer c o) = steer c o.
Proof.
  unfold steer.
  destruct (left c), (right c), (up c || space c), (touchingDown o) eqn:Hd;
    simpl; rewrite ?Hd; reflexivity.
Qed.

Lemma ensure_pipeline_twice o :
  ensure_pipeline (ensure_pipeline o) = ensure_pipeline o.
Proof.
  unfold ensure_pipeline. destruct (pipeline o) eqn:Hp; simpl; by rewrite ?Hp.
Qed.

(** X4: two calls of [update] in a row with the same keys held, with no
    physics step in between, leave the scene exactly as one call does. *)
Theorem update_twice_is_once (cursors : Cursors) (s : Scene) :
  exec (update cursors) (exec (update cursors) s) = exec (update cursors) s.
Proof.
  rewrite !exec_update. destruct (gameOver s) eqn:Hover; [by rewrite Hover|].
  cbn zeta. destruct (shaderEnabled s) eqn:Hsh; simpl; rewrite Hover, Hsh.
  - rewrite steer_steer. unfold set_bombs, set_player; simpl. f_equal.
    rewrite <- list_fmap_compose. apply list_fmap_ext.
    intros i o _. apply ensure_pipeline_twice.
  - by rewrite steer_steer.
Qed.

(** X5: [update] only steers.  Whatever the keys, it leaves the sky, the
    platforms, the stars, the score and its text, the three flags and the
    physics pause as they are, keeps the number of bombs, and does not move
    or recolour the player: of the player it writes the velocity and the
    animation only.  In a running game the animation is ['left'] if the
    left cursor is down, else ['right'] if the right one is, else
    ['turn']. *)
Theorem update_only_steers (cursors : Cursors) (s : Scene) :
  let s' := exec (update cursors) s in
  sky s' = sky s /\ platforms s' = platforms s /\ stars s' = stars s
  /\ score s' = score s /\ scoreText s' = scoreText s
  /\ gameOver s' = gameOver s
  /\ gameOverTextVisible s' = gameOverTextVisible s
  /\ shaderEnabled s' = shaderEnabled s
  /\ physicsPaused s' = physicsPaused s
  /\ length (bombs s') = length (bombs s)
  /\ x (player s') = x (player s) /\ y (player s') = y (player s)
  /\ tint (player s') = tint (player s)
  /\ pipeline (player s') = pipeline (player s)
  /\ (gameOver s = false ->
      anim (player s')
      = Some (if left cursors then "left"
              else if right cursors then "right" else "turn")).
Proof.
  intros s'. subst s'. rewrite exec_update.
  destruct (gameOver s) eqn:Hover.
  - repeat split; try reflexivity; [exact Hover | intros; discriminate].
  - cbn zeta. unfold steer.
    destruct (shaderEnabled s) eqn:Hsh, (left cursors), (right cursors),
      ((up cursors || space cursors) && touchingDown (player s));
      simpl; rewrite ?length_fmap; repeat split;
      first [reflexivity | exact Hover | exact Hsh | intros _; reflexivity].
Qed.

Lemma update_only_steers_witness :
  anim (player (exec (update (mkCursors false true false false)) first_bomb))
  = Some "right".
Proof.
  destruct (update_only_steers (mkCursors false true false false) first_bomb)
    as (_ & _ & _ & _ & _ & _ & _ & _ & _ & _ & _ & _ & _ & _ & Hanim).
  apply Hanim. vm_compute. reflexivity.
Defined.

(** The loop over the bombs does nothing when every bomb has a
    pipeline. *)
Lemma shade_loop_inert (l : list nat) (s : Scene) :
  Forall (fun o => is_Some (pipeline o)) (bombs s) ->
  Forall (fun j => (j < length (bombs s))%nat) l ->
  exec (for_ l shade_new_bomb) s = s /\ calls (for_ l shade_new_bomb) s = [].
Proof.
  intros Hb Hl. induction Hl as [|j l Hj _ IH]; [by split|].
  assert (Hbody : exec (shade_new_bomb j) s = s
                  /\ calls (shade_new_bomb j) s = []).
  { unfold shade_new_bomb. prog_calls. simpl.
    destruct (lookup_lt_is_Some_2 _ _ Hj) as [o Ho]. rewrite Ho. simpl.
    rewrite Forall_lookup in Hb. destruct (Hb j o Ho) as [q Hq].
    rewrite Hq. simpl. by split. }
  destruct Hbody as [He Hc]. destruct IH as [IHe IHc].
  simpl. rewrite exec_bind, calls_bind, He, Hc, IHe, IHc. by split.
Qed.

(** X6: in every scene the game can be in, the loop of lines 211-217 finds
    no bomb without a pipeline: a frame of a running game makes the
    [setVelocityX] and [anims.play] calls, the [setVelocityY] call of a
    jump, and no other call, and it leaves the bombs untouched. *)
Theorem update_never_shades (cursors : Cursors) (s : Scene) :
  reachable s -> gameOver s = false ->
  calls (update cursors) s
  = (if left cursors
     then [SetVelocityX Player (-160); AnimsPlay Player "left" true]
     else if right cursors
     then [SetVelocityX Player 160; AnimsPlay Player "right" true]
     else [SetVelocityX Player 0; AnimsPlay Player "turn" false])
    ++ (if (up cursors || space cursors) && touchingDown (player s)
        then [SetVelocityY Player (-350)] else [])
  /\ bombs (exec (update cursors) s) = bombs s.
Proof.
  intros Hs Hover.
  destruct (reachable_follows_flag s Hs) as (_ & _ & _ & _ & Hbombs).
  assert (Hsome : Forall (fun o => is_Some (pipeline o)) (bombs s)).
  { eapply Forall_impl; [exact Hbombs|]. intros o ->. by eexists. }
  assert (Hloop : forall s', bombs s' = bombs s ->
            exec (each (fun s => bombs s) shade_new_bomb) s' = s'
            /\ calls (each (fun s => bombs s) shade_new_bomb) s' = []).
  { intros s' Hs'. rewrite exec_each, calls_each. apply shade_loop_inert.
    - by rewrite Hs'.
    - apply Forall_forall. intros j Hj. apply elem_of_seq in Hj. lia. }
  split.
  - unfold update. prog_calls. rewrite Hover.
    destruct (left cursors), (right cursors); prog_calls; simpl;
      destruct ((up cursors || space cursors) && touchingDown (player s));
      simpl; destruct (shaderEnabled s); simpl; try reflexivity;
      match goal with
      | |- context [calls (each _ shade_new_bomb) ?s'] =>
          rewrite (proj2 (Hloop s' eq_refl)); reflexivity
      end.
  - rewrite exec_update, Hover. cbn zeta.
    destruct (shaderEnabled s); [|reflexivity]. simpl.
    apply list_eq. intros j. rewrite list_lookup_fmap.
    destruct (bombs s !! j) as [o|] eqn:Ho; [|reflexivity]. simpl.
    rewrite Forall_lookup in Hsome. destruct (Hsome j o Ho) as [q Hq].
    unfold ensure_pipeline. by rewrite Hq.
Qed.

Lemma update_never_shades_witness :
  calls (update (mkCursors true false false false)) first_bomb
  = [SetVelocityX Player (-160); AnimsPlay Player "left" true]
  /\ bombs (exec (update (mkCursors true false false false)) first_bomb)
     = bombs first_bomb.
Proof.
  assert (Hr : reachable first_bomb).
  { unfold first_bomb. apply reachable_run. constructor. }
  exact (update_never_shades (mkCursors true false false false) first_bomb
           Hr eq_refl).
Defined.

(** X7: once the game is over, frames do nothing at all: any number of
    [update] calls, whatever keys are held, leaves the scene as it is, and
    none of them makes an engine call. *)
Theorem frames_after_game_over (s : Scene) (cs : list Cursors) :
  gameOver s = true ->
  run ((fun c => Frame c) <$> cs) s = s
  /\ Forall (fun c => calls (update c) s = []) cs.
Proof.
  intros Hover. split.
  - induction cs as [|c cs IH]; [reflexivity|].
    rewrite fmap_cons. simpl. rewrite exec_update, Hover. exact IH.
  - apply Forall_forall. intros c _. unfold update. prog_calls.
    by rewrite Hover.
Qed.

Lemma frames_after_game_over_witness :
  run [Frame (mkCursors true false true false);
       Frame (mkCursors false true false true)] game_over_scene
  = game_over_scene.
Proof.
  exact (proj1 (frames_after_game_over game_over_scene
                  [mkCursors true false true false;
                   mkCursors false true false true] eq_refl)).
Defined.

(** ** More on [collectStar] *)

Lemma countActive_cons o l :
  countActive (o :: l)
  = ((if active o then 1 else 0) + countActive l)%nat.
Proof.
  unfold countActive. rewrite filter_cons.
  destruct (active o); reflexivity.
Qed.

Lemma countActive_le_length l : (countActive l <= length l)%nat.
Proof. unfold countActive. apply length_filter. Qed.

Lemma countActive_disable i l o :
  l !! i = Some o -> active o = true ->
  S (countActive (alter (disable true true) i l)) = countActive l.
Proof.
  revert i. induction l as [|o0 l IH]; intros i Hi Ha; [done|].
  destruct i as [|i]; simpl in Hi.
  - injection Hi as ->. simpl. rewrite !countActive_cons, Ha. reflexivity.
  - simpl. rewrite !countActive_cons, <- (IH i Hi Ha).
    destruct (active o0); reflexivity.
Qed.

Lemma countActive_respawn b l : countActive (respawn b <$> l) = length l.
Proof.
  induction l as [|o l IH]; [reflexivity|].
  rewrite fmap_cons, countActive_cons, IH. simpl.
  unfold respawn. destruct b; reflexivity.
Qed.

(** X8: collecting an active star lowers the number of active stars by
    exactly one, except when it was the last one: then all stars of the
    group are active again. *)
Theorem collectStar_counts_down (between : Z -> Z -> Z) (i : nat)
    (s : Scene) (o : GameObject) :
  stars s !! i = Some o -> active o = true ->
  let s' := exec (collectStar between Player (Star i)) s in
  (1 <= countActive (stars s))%nat
  /\ countActive (stars s')
     = (if Nat.eqb (countActive (stars s)) 1 then length (stars s)
        else countActive (stars s) - 1)%nat.
Proof.
  intros Hi Ha s'. subst s'. rewrite exec_collectStar. cbn zeta.
  pose proof (countActive_disable i (stars s) o Hi Ha) as Hc.
  split; [lia|].
  change (stars (collected i s)) with (alter (disable true true) i (stars s)).
  destruct (Nat.eqb_spec
              (countActive (alter (disable true true) i (stars s))) 0)
    as [Hz|Hnz].
  - simpl. rewrite countActive_respawn, length_alter.
    destruct (Nat.eqb_spec (countActive (stars s)) 1); [reflexivity | lia].
  - simpl. destruct (Nat.eqb_spec (countActive (stars s)) 1); lia.
Qed.

Lemma collectStar_counts_down_witness :
  countActive (stars (exec (collectStar between_lo Player (Star 11))
                        one_star_left)) = 12%nat
  /\ countActive (stars (exec (collectStar between_lo Player (Star 5))
                           (create fb_half))) = 11%nat.
Proof.
  split.
  - refine (proj2 (collectStar_counts_down between_lo 11 one_star_left _
                     _ _)); vm_compute; reflexivity.
  - refine (proj2 (collectStar_counts_down between_lo 5 (create fb_half) _
                     _ _)); vm_compute; reflexivity.
Defined.

(** X9: [collectStar] never touches the player, the sky, the platforms,
    the game-over flag and text, the shader flag or the physics pause; it
    keeps the number of stars, and it never removes or changes a bomb that
    is there: the bombs before are a prefix of the bombs after, with at
    most one more. *)
Theorem collectStar_keeps_the_rest (between : Z -> Z -> Z) (i : nat)
    (s : Scene) :
  let s' := exec (collectStar between Player (Star i)) s in
  player s' = player s /\ sky s' = sky s /\ platforms s' = platforms s
  /\ gameOver s' = gameOver s
  /\ gameOverTextVisible s' = gameOverTextVisible s
  /\ shaderEnabled s' = shaderEnabled s
  /\ physicsPaused s' = physicsPaused s
  /\ length (stars s') = length (stars s)
  /\ bombs s `prefix_of` bombs s'
  /\ (length (bombs s') <= S (length (bombs s)))%nat.
Proof.
  intros s'. subst s'. rewrite exec_collectStar. cbn zeta.
  destruct (Nat.eqb _ 0); simpl;
    rewrite ?length_fmap, ?length_alter, ?length_app; simpl;
    repeat split; try reflexivity; try lia.
  by eexists.
Qed.

(** X10: the bomb that [collectStar] adds with the last star starts at
    y = 16 with a horizontal velocity that is an integer between -200 and
    200 and the vertical velocity 20, bounces fully on both axes, collides
    with the world bounds, is active and shown, and renders with the Wave
    pipeline exactly when the shader is on.  ([Phaser.Math.Between] is
    taken to return an integer within its bounds.) *)
Theorem collectStar_arms_the_bomb (between : Z -> Z -> Z) (i : nat)
    (s : Scene) :
  (forall lo hi, (lo <= hi)%Z -> (lo <= between lo hi <= hi)%Z) ->
  countActive (stars (interp (DisableBody (Star i) true true) s)) = 0%nat ->
  exists b vx,
    bombs (exec (collectStar between Player (Star i)) s) = bombs s ++ [b]
    /\ Play.armed b
    /\ velocityX b = inject_Z vx /\ (-200 <= vx <= 200)%Z
    /\ velocityY b = 20%Q /\ y b = 16%Q
    /\ pipeline b = pipeline_for (shaderEnabled s)
    /\ tint b = None.
Proof.
  intros Hbetween Hz. rewrite exec_collectStar. cbn zeta.
  change (stars (collected i s)) with
    (stars (interp (DisableBody (Star i) true true) s)).
  rewrite Hz. simpl.
  eexists. exists (between (-200) 200)%Z. split; [reflexivity|].
  unfold spawn_bomb, Play.armed.
  destruct (shaderEnabled s); simpl; repeat split; try reflexivity;
    apply Hbetween; lia.
Qed.

Lemma collectStar_arms_the_bomb_witness :
  exists b vx,
    bombs (exec (collectStar between_lo Player (Star 11)) one_star_left)
    = bombs one_star_left ++ [b]
    /\ Play.armed b
    /\ velocityX b = inject_Z vx /\ (-200 <= vx <= 200)%Z
    /\ velocityY b = 20%Q /\ y b = 16%Q
    /\ pipeline b = pipeline_for (shaderEnabled one_star_left)
    /\ tint b = None.
Proof.
  apply (collectStar_arms_the_bomb between_lo 11 one_star_left).
  - unfold between_lo. lia.
  - vm_compute. reflexivity.
Defined.

(** ** More on [hitBomb] *)

(** X11: [hitBomb] makes three calls: it pauses the physics, tints the
    player red and plays ['turn']; which bomb was hit makes no difference,
    and a second call (two bombs hit in one step) changes nothing more.
    It leaves the score, the stars, the bombs, the shader flag and the
    player's position and velocity as they are. *)
Theorem hitBomb_once_is_enough (j j' : nat) (s : Scene) :
  let s' := exec (hitBomb Player (Bomb j)) s in
  calls (hitBomb Player (Bomb j)) s
  = [PhysicsPause; SetTint Player 16711680; AnimsPlay Player "turn" false]
  /\ exec (hitBomb Player (Bomb j')) s = s'
  /\ exec (hitBomb Player (Bomb j')) s' = s'
  /\ tint (player s') = Some 16711680%Z /\ anim (player s') = Some "turn"
  /\ x (player s') = x (player s) /\ y (player s') = y (player s)
  /\ velocityX (player s') = velocityX (player s)
  /\ velocityY (player s') = velocityY (player s)
  /\ stars s' = stars s /\ bombs s' = bombs s /\ platforms s' = platforms s
  /\ score s' = score s /\ scoreText s' = scoreText s
  /\ shaderEnabled s' = shaderEnabled s.
Proof.
  intros s'. subst s'. rewrite !exec_hitBomb.
  repeat split; reflexivity.
Qed.

(** ** More on the shader toggle *)

Lemma calls_for_call (c : nat -> Call) (l : list nat) (s : Scene) :
  calls (for_ l (fun k => call (c k))) s = c <$> l.
Proof.
  revert s. induction l as [|k l IH]; intros s; [reflexivity|].
  simpl. rewrite calls_bind, calls_call, IH. reflexivity.
Qed.

(** X12: a press of S flips the flag and, from any scene whatever, leaves
    every object on the pipeline the new flag asks for; it changes nothing
    else (objects differ from before in their pipeline only), and from
    then on two more presses give the same scene back: three presses are
    one. *)
Theorem toggle_sets_every_pipeline (s : Scene) :
  let s' := exec keydown_S s in
  let b := negb (shaderEnabled s) in
  shaderEnabled s' = b
  /\ follows_flag s'
  /\ sky s' = repipe b (sky s) /\ player s' = repipe b (player s)
  /\ platforms s' = repipe b <$> platforms s
  /\ stars s' = repipe b <$> stars s
  /\ bombs s' = repipe b <$> bombs s
  /\ score s' = score s /\ scoreText s' = scoreText s
  /\ gameOver s' = gameOver s
  /\ gameOverTextVisible s' = gameOverTextVisible s
  /\ physicsPaused s' = physicsPaused s
  /\ exec keydown_S (exec keydown_S s') = s'.
Proof.
  intros s' b.
  assert (Hflag : follows_flag s').
  { subst s'. rewrite exec_keydown_S. cbn zeta. unfold follows_flag. simpl.
    repeat split; try reflexivity; apply Forall_fmap, Forall_true; done. }
  split; [subst s'; by rewrite exec_keydown_S|].
  split; [exact Hflag|].
  split; [subst s'; by rewrite exec_keydown_S|].
  split; [subst s'; by rewrite exec_keydown_S|].
  split; [subst s'; by rewrite exec_keydown_S|].
  split; [subst s'; by rewrite exec_keydown_S|].
  split; [subst s'; by rewrite exec_keydown_S|].
  split; [subst s'; by rewrite exec_keydown_S|].
  split; [subst s'; by rewrite exec_keydown_S|].
  split; [subst s'; by rewrite exec_keydown_S|].
  split; [subst s'; by rewrite exec_keydown_S|].
  split; [subst s'; by rewrite exec_keydown_S|].
  by apply keydown_S_twice.
Qed.

(** X13: a press of S calls the engine once per object and in a fixed
    order: the sky, the platforms, the stars, the player, the bombs; every
    call is [setPipeline('Wave')] when the press turns the shader on and
    [resetPipeline()] when it turns it off. *)
Theorem toggle_calls_each_object_once (s : Scene) :
  calls keydown_S s
  = Play.toggle_calls
      (if negb (shaderEnabled s)
       then (fun o => SetPipeline o "Wave") else ResetPipeline) s
  /\ length (calls keydown_S s)
     = (2 + length (platforms s) + length (stars s) + length (bombs s))%nat.
Proof.
  assert (Hcalls : calls keydown_S s
    = Play.toggle_calls
        (if negb (shaderEnabled s)
         then (fun o => SetPipeline o "Wave") else ResetPipeline) s).
  { unfold keydown_S, Play.toggle_calls. prog_calls. simpl shaderEnabled.
    destruct (shaderEnabled s); simpl negb; cbv iota; prog_calls;
      rewrite !calls_each, !calls_for_call.
    - rewrite (exec_each_call (fun s => platforms s) set_platforms _
                 (repipe false)) by lens.
      rewrite (exec_each_call (fun s => stars s) set_stars _
                 (repipe false)) by lens.
      reflexivity.
    - rewrite (exec_each_call (fun s => platforms s) set_platforms _
                 (repipe true)) by lens.
      rewrite (exec_each_call (fun s => stars s) set_stars _
                 (repipe true)) by lens.
      reflexivity. }
  split; [exact Hcalls|]. rewrite Hcalls. unfold Play.toggle_calls.
  repeat (rewrite ?length_app, ?length_fmap, ?length_seq; simpl). lia.
Qed.

(** ** What stays true while the game runs *)

Lemma stars_handle e s :
  stars (handle e s)
  = match e with
    | Overlap i _ =>
        let l := alter (disable true true) i (stars s) in
        if Nat.eqb (countActive l) 0
        then respawn (shaderEnabled s) <$> l else l
    | PointerDown fb => if gameOver s then stars (create fb) else stars s
    | KeyDownS => repipe (negb (shaderEnabled s)) <$> stars s
    | WorldStep _ ms _ => imap (fun i => move (ms i)) (stars s)
    | _ => stars s
    end.
Proof.
  destruct e as [c|i b|j|fb| |mp ms mb].
  - unfold handle. rewrite exec_update.
    destruct (gameOver s), (shaderEnabled s); reflexivity.
  - unfold handle. rewrite exec_collectStar. cbn zeta.
    change (stars (collected i s)) with (alter (disable true true) i (stars s)).
    destruct (Nat.eqb _ 0); reflexivity.
  - unfold handle. rewrite exec_hitBomb. reflexivity.
  - rewrite handle_PointerDown. by destruct (gameOver s).
  - unfold handle. rewrite exec_keydown_S. reflexivity.
  - reflexivity.
Qed.

Lemma bombs_handle e s :
  bombs (handle e s)
  = match e with
    | Frame _ =>
        if gameOver s then bombs s
        else if shaderEnabled s then ensure_pipeline <$> bombs s
        else bombs s
    | Overlap i between =>
        if Nat.eqb (countActive (alter (disable true true) i (stars s))) 0
        then bombs s
             ++ [spawn_bomb (shaderEnabled s)
                   (if Qltb (x (player s)) 400 then between 400 800
                    else between 0 400)%Z
                   (between (-200) 200)%Z]
        else bombs s
    | Collide _ => bombs s
    | PointerDown fb => if gameOver s then [] else bombs s
    | KeyDownS => repipe (negb (shaderEnabled s)) <$> bombs s
    | WorldStep _ _ mb => imap (fun j => move (mb j)) (bombs s)
    end.
Proof.
  destruct e as [c|i b|j|fb| |mp ms mb].
  - unfold handle. rewrite exec_update.
    destruct (gameOver s), (shaderEnabled s); reflexivity.
  - unfold handle. rewrite exec_collectStar. cbn zeta.
    change (stars (collected i s)) with (alter (disable true true) i (stars s)).
    destruct (Nat.eqb _ 0); reflexivity.
  - unfold handle. rewrite exec_hitBomb. reflexivity.
  - rewrite handle_PointerDown. by destruct (gameOver s).
  - unfold handle. rewrite exec_keydown_S. reflexivity.
  - reflexivity.
Qed.

Lemma shaderEnabled_handle e s :
  shaderEnabled (handle e s)
  = match e with
    | PointerDown _ => if gameOver s then true else shaderEnabled s
    | KeyDownS => negb (shaderEnabled s)
    | _ => shaderEnabled s
    end.
Proof.
  destruct e as [c|i b|j|fb| |mp ms mb].
  - unfold handle. rewrite exec_update.
    destruct (gameOver s), (shaderEnabled s) eqn:Hsh; simpl; congruence.
  - unfold handle. rewrite exec_collectStar. cbn zeta.
    destruct (Nat.eqb _ 0); reflexivity.
  - unfold handle. rewrite exec_hitBomb. reflexivity.
  - rewrite handle_PointerDown. by destruct (gameOver s).
  - unfold handle. rewrite exec_keydown_S. reflexivity.
  - reflexivity.
Qed.

Lemma Forall_imap_keep (P : GameObject -> Prop)
    (f : nat -> GameObject -> GameObject) l :
  (forall i o, P o -> P (f i o)) -> Forall P l -> Forall P (imap f l).
Proof.
  intros Hf Hl. rewrite Forall_lookup in Hl. apply Forall_lookup. intros i o.
  rewrite list_lookup_imap. destruct (l !! i) as [o0|] eqn:Hi; simpl; [|done].
  intros [= <-]. apply Hf. exact (Hl i o0 Hi).
Qed.

Lemma Forall_fmap_keep (P : GameObject -> Prop)
    (f : GameObject -> GameObject) l :
  (forall o, P o -> P (f o)) -> Forall P l -> Forall P (f <$> l).
Proof.
  intros Hf Hl. apply Forall_fmap. eapply Forall_impl; [exact Hl|].
  intros o Ho. by apply Hf.
Qed.

Lemma Forall_alter_keep (P : GameObject -> Prop)
    (f : GameObject -> GameObject) i l :
  (forall o, P o -> P (f o)) -> Forall P l -> Forall P (alter f i l).
Proof.
  intros Hf Hl. rewrite Forall_lookup in Hl. apply Forall_lookup. intros k o.
  destruct (decide (i = k)) as [->|Hne].
  - rewrite list_lookup_alter_eq.
    destruct (l !! k) as [o0|] eqn:Hk; simpl; [|done].
    intros [= <-]. apply Hf. exact (Hl k o0 Hk).
  - rewrite list_lookup_alter_ne by done. apply Hl.
Qed.

(** X14: in every scene the game can be in, the score text shows the
    score: it is ['Score: '] followed by the decimal digits of the score
    counter. *)
Theorem score_text_shows_score (s : Scene) :
  reachable s -> scoreText s = "Score: " +:+ Number_toString (score s).
Proof.
  induction 1 as [fb|s e _ IH]; [reflexivity|].
  rewrite scoreText_handle, score_handle.
  destruct e; try exact IH; [reflexivity|].
  destruct (gameOver s); [reflexivity | exact IH].
Qed.

Lemma score_text_shows_score_witness :
  scoreText first_bomb = "Score: " +:+ Number_toString (score first_bomb).
Proof.
  apply score_text_shows_score. unfold first_bomb.
  apply reachable_run. constructor.
Defined.

(** X15: in every scene the game can be in there are exactly twelve
    stars, and each star is shown and has an enabled body exactly when it
    is active. *)
Theorem stars_stay_twelve (s : Scene) :
  reachable s ->
  length (stars s) = 12%nat /\ Forall Play.star_flags_agree (stars s).
Proof.
  induction 1 as [fb|s e _ [IHn IHf]].
  - split; [reflexivity|]. simpl. repeat constructor.
  - rewrite stars_handle. destruct e as [c|i b|j|fb| |mp ms mb];
      try (split; assumption).
    + cbn zeta.
      assert (Hd : Forall Play.star_flags_agree
                     (alter (disable true true) i (stars s))).
      { apply Forall_alter_keep; [|exact IHf]. intros o _. by split. }
      destruct (Nat.eqb _ 0).
      * split; [by rewrite length_fmap, length_alter|].
        apply Forall_fmap, Forall_true. intros o.
        unfold respawn. by destruct (shaderEnabled s).
      * split; [by rewrite length_alter | exact Hd].
    + destruct (gameOver s); [|by split].
      split; [reflexivity|]. simpl. repeat constructor.
    + split; [by rewrite length_fmap|].
      apply Forall_fmap_keep; [|exact IHf]. by intros o [? ?].
    + split; [by rewrite length_imap|].
      apply Forall_imap_keep; [|exact IHf]. by intros k o [? ?].
Qed.

Lemma stars_stay_twelve_witness :
  length (stars game_over_scene) = 12%nat
  /\ Forall Play.star_flags_agree (stars game_over_scene).
Proof.
  apply stars_stay_twelve. unfold game_over_scene, first_bomb.
  constructor. apply reachable_run. constructor.
Defined.

Lemma scenery_handle e s :
  (sky (handle e s), platforms (handle e s))
  = match e with
    | PointerDown fb =>
        if gameOver s then (sky (create fb), platforms (create fb))
        else (sky s, platforms s)
    | KeyDownS =>
        (repipe (negb (shaderEnabled s)) (sky s),
         repipe (negb (shaderEnabled s)) <$> platforms s)
    | _ => (sky s, platforms s)
    end.
Proof.
  destruct e as [c|i b|j|fb| |mp ms mb].
  - unfold handle. rewrite exec_update.
    destruct (gameOver s), (shaderEnabled s); reflexivity.
  - unfold handle. rewrite exec_collectStar. cbn zeta.
    destruct (Nat.eqb _ 0); reflexivity.
  - unfold handle. rewrite exec_hitBomb. reflexivity.
  - rewrite handle_PointerDown. by destruct (gameOver s).
  - unfold handle. rewrite exec_keydown_S. reflexivity.
  - reflexivity.
Qed.

(** X16: the sky and the four platforms are scenery: in every scene the
    game can be in they are exactly as [create] made them (same texture,
    place and scale), except for the pipeline, which is the one the shader
    flag asks for. *)
Theorem scenery_never_changes (s : Scene) (fb : nat -> Q) :
  reachable s ->
  sky s = repipe (shaderEnabled s) (sky (create fb))
  /\ platforms s = repipe (shaderEnabled s) <$> platforms (create fb).
Proof.
  induction 1 as [fb'|s e _ [IHs IHp]]; [by split|].
  pose proof (f_equal fst (scenery_handle e s)) as Hsky.
  pose proof (f_equal snd (scenery_handle e s)) as Hplat.
  cbn [fst snd] in Hsky, Hplat.
  rewrite Hsky, Hplat, shaderEnabled_handle.
  destruct e as [c|i b|j|fb'| |mp ms mb]; cbn [fst snd];
    try (split; assumption).
  - destruct (gameOver s); by split.
  - rewrite IHs at 1. rewrite IHp at 1.
    by rewrite repipe_all_repipe.
Qed.

Lemma scenery_never_changes_witness :
  platforms (handle KeyDownS game_over_scene)
  = repipe false <$> platforms (create fb_half).
Proof.
  assert (Hr : reachable (handle KeyDownS game_over_scene)).
  { unfold game_over_scene, first_bomb. do 2 constructor.
    apply reachable_run. constructor. }
  exact (proj2 (scenery_never_changes _ fb_half Hr)).
Defined.

(** X17: every bomb in a scene the game can be in is as [collectStar]
    armed it: texture ['bomb'], full bounce on both axes, colliding with the
    world bounds, enabled, active and shown; and no event other than a
    restart ever lowers the number of bombs. *)
Theorem bombs_stay_armed (s : Scene) :
  reachable s ->
  Forall Play.armed (bombs s)
  /\ forall e, restarts e s = false ->
       (length (bombs s) <= length (bombs (handle e s)))%nat.
Proof.
  intros Hs. split.
  - induction Hs as [fb|s e _ IH]; [constructor|].
    rewrite bombs_handle. destruct e as [c|i b|j|fb| |mp ms mb].
    + destruct (gameOver s); [exact IH|].
      destruct (shaderEnabled s); [|exact IH].
      apply Forall_fmap_keep; [|exact IH]. intros o Ho.
      unfold ensure_pipeline. by destruct (pipeline o).
    + destruct (Nat.eqb _ 0); [|exact IH].
      apply Forall_app. split; [exact IH|]. constructor; [|constructor].
      unfold spawn_bomb, Play.armed.
      destruct (shaderEnabled s); repeat split; reflexivity.
    + exact IH.
    + destruct (gameOver s); [constructor | exact IH].
    + apply Forall_fmap_keep; [|exact IH]. by intros o Ho.
    + apply Forall_imap_keep; [|exact IH]. by intros k o Ho.
  - intros e He. rewrite bombs_handle.
    destruct e as [c|i b|j|fb| |mp ms mb]; simpl in He.
    + destruct (gameOver s), (shaderEnabled s); rewrite ?length_fmap; lia.
    + destruct (Nat.eqb _ 0); rewrite ?length_app; simpl; lia.
    + lia.
    + rewrite He. lia.
    + rewrite length_fmap. lia.
    + rewrite length_imap. lia.
Qed.

Lemma bombs_stay_armed_witness :
  Forall Play.armed (bombs game_over_scene)
  /\ (length (bombs game_over_scene)
      <= length (bombs (handle (Overlap 0 between_lo) game_over_scene)))%nat.
Proof.
  assert (Hr : reachable game_over_scene).
  { unfold game_over_scene, first_bomb. constructor.
    apply reachable_run. constructor. }
  destruct (bombs_stay_armed game_over_scene Hr) as [Harmed Hmono].
  split; [exact Harmed | by apply Hmono].
Defined.

Lemma played_reachable s : Play.played s -> reachable s.
Proof. induction 1; by constructor. Qed.

Lemma countActive_fmap (f : GameObject -> GameObject) l :
  (forall o, active (f o) = active o) ->
  countActive (f <$> l) = countActive l.
Proof.
  intros Hf. induction l as [|o l IH]; [reflexivity|].
  by rewrite fmap_cons, !countActive_cons, Hf, IH.
Qed.

Lemma countActive_imap (f : nat -> GameObject -> GameObject) l :
  (forall i o, active (f i o) = active o) ->
  countActive (imap f l) = countActive l.
Proof.
  revert f. induction l as [|o l IH]; intros f Hf; [reflexivity|].
  rewrite imap_cons, !countActive_cons, Hf, IH; [reflexivity|].
  intros i o'. apply Hf.
Qed.

(** X18: when the engine reports overlaps for active stars only, the score
    counts the stars collected since the scene started: every bomb stands
    for a full round of twelve stars, so the score is 10 times (12 times
    the number of bombs, plus the number of stars now inactive). *)
Theorem score_counts_collected_stars (s : Scene) :
  Play.played s ->
  score s
  = (10 * (12 * Z.of_nat (length (bombs s))
           + (12 - Z.of_nat (countActive (stars s)))))%Z.
Proof.
  induction 1 as [fb|s e Hp IH He]; [reflexivity|].
  destruct (stars_stay_twelve s (played_reachable s Hp)) as [Hlen _].
  rewrite score_handle, bombs_handle, stars_handle.
  destruct e as [c|i b|j|fb| |mp ms mb].
  - destruct (gameOver s), (shaderEnabled s); rewrite ?length_fmap; exact IH.
  - simpl in He. destruct (stars s !! i) as [o|] eqn:Hi; [|discriminate].
    simpl in He. pose proof (countActive_disable i (stars s) o Hi He) as Hc.
    cbn zeta.
    destruct (Nat.eqb_spec
                (countActive (alter (disable true true) i (stars s))) 0)
      as [Hz|Hnz].
    + rewrite countActive_respawn, length_alter, length_app, Hlen. simpl.
      rewrite IH. lia.
    + rewrite IH. lia.
  - exact IH.
  - destruct (gameOver s); [reflexivity | exact IH].
  - rewrite length_fmap, countActive_fmap by reflexivity. exact IH.
  - rewrite length_imap, countActive_imap by reflexivity. exact IH.
Qed.

Lemma score_counts_collected_stars_witness :
  score (handle (Overlap 4 between_lo) (create fb_half)) = 10%Z.
Proof.
  assert (Hp : Play.played (handle (Overlap 4 between_lo) (create fb_half))).
  { apply Play.played_handle; [constructor | reflexivity]. }
  rewrite (score_counts_collected_stars _ Hp). vm_compute. reflexivity.
Defined.

Lemma flags_kept e s :
  Play.is_click e = false ->
  (gameOver s = true -> gameOver (handle e s) = true)
  /\ (physicsPaused s = true -> physicsPaused (handle e s) = true).
Proof.
  intros He. split.
  - rewrite gameOver_handle. destruct e; try discriminate; auto.
  - destruct e as [c|i b|j|fb| |mp ms mb]; try discriminate.
    + apply physicsPaused_handle. reflexivity.
    + unfold handle. rewrite exec_collectStar. cbn zeta.
      destruct (Nat.eqb _ 0); auto.
    + apply physicsPaused_handle. reflexivity.
    + apply physicsPaused_handle. reflexivity.
    + apply physicsPaused_handle. reflexivity.
Qed.

(** X19: nothing but a click ends the game-over state or resumes the
    physics: over any sequence of events without a click, star overlaps
    included, [gameOver] stays true once it is and the physics stays paused
    once it is. *)
Theorem only_a_click_restarts (s : Scene) (es : list Event) :
  Forall (fun e => Play.is_click e = false) es ->
  (gameOver s = true -> gameOver (run es s) = true)
  /\ (physicsPaused s = true -> physicsPaused (run es s) = true).
Proof.
  intros Hes. revert s. induction Hes as [|e es He _ IH]; intros s;
    [by split|].
  simpl. destruct (flags_kept e s He) as [Hg Hp].
  destruct (IH (handle e s)) as [IHg IHp]. split; auto.
Qed.

Lemma only_a_click_restarts_witness :
  gameOver (run [Overlap 0 between_lo; KeyDownS] game_over_scene) = true.
Proof.
  assert (Hes : Forall (fun e => Play.is_click e = false)
                  [Overlap 0 between_lo; KeyDownS])
    by (repeat constructor).
  apply (proj1 (only_a_click_restarts game_over_scene _ Hes)).
  vm_compute. reflexivity.
Defined.
